(** * File search server: keyword search in a file and in a directory tree

    A shallow embedding of [file_search_server.py] and the properties of its
    two tools, [search_keyword_in_file] and [search_keyword_in_directory].

    Python strings are sequences of Unicode code points, Python integers are
    unbounded ([Z]), file contents are bytes.  The interpreter's exceptions
    are modelled by a small error monad; the file system is an explicit
    argument. *)

From Stdlib Require Import ZArith NArith List Lia Bool String Ascii Sorted.
From Stdlib Require Import Strings.Byte DecimalString.
Import ListNotations.

Local Open Scope Z_scope.

(** ** Python strings *)

Module Py.

(** A [str] is a sequence of code points. *)
Definition str := list N.

(** Source literals are written as Rocq strings. *)
Definition lit (s : string) : str := map N_of_ascii (list_ascii_of_string s).

Definition NL : N := 10%N.
Definition CR : N := 13%N.

Definition str_eqb (a b : str) : bool :=
  if list_eq_dec N.eq_dec a b then true else false.

(** [s.startswith(p)] *)
Fixpoint startswith (s p : str) : bool :=
  match p, s with
  | [], _ => true
  | _ :: _, [] => false
  | a :: p', b :: s' => N.eqb a b && startswith s' p'
  end.

(** [needle in hay] *)
Fixpoint contains (needle hay : str) : bool :=
  startswith hay needle ||
  match hay with
  | [] => false
  | _ :: hay' => contains needle hay'
  end.

(** [s.endswith(p)] *)
Definition endswith (s p : str) : bool := startswith (rev s) (rev p).

(** [s.rstrip('\n')] *)
Fixpoint rstrip_nl (s : str) : str :=
  match s with
  | [] => []
  | c :: t =>
      match rstrip_nl t with
      | [] => if N.eqb c NL then [] else [c]
      | t' => c :: t'
      end
  end.

(** [sep.join(parts)] *)
Fixpoint join (sep : str) (parts : list str) : str :=
  match parts with
  | [] => []
  | [p] => p
  | p :: ps => p ++ sep ++ join sep ps
  end.

(** [str(n)] for an integer. *)
Definition str_of_int (n : Z) : str := lit (NilZero.string_of_int (Z.to_int n)).

(** [f"{n:4d}"]: decimal, right-aligned in a field of width at least 4. *)
Definition format_4d (n : Z) : str :=
  let s := str_of_int n in
  repeat 32%N (4 - List.length s) ++ s.

(** [range(start, stop)] *)
Definition range (start stop : Z) : list Z :=
  map (fun i => start + Z.of_nat i) (seq 0 (Z.to_nat (stop - start))).

(** [enumerate(l, start=1)] *)
Definition enumerate1 {A} (l : list A) : list (Z * A) :=
  combine (range 1 (Z.of_nat (List.length l) + 1)) l.

(** [l[i]]: a negative index counts from the end; [None] stands for
    [IndexError]. *)
Definition index {A} (l : list A) (i : Z) : option A :=
  let n := Z.of_nat (List.length l) in
  if (0 <=? i) && (i <? n) then nth_error l (Z.to_nat i)
  else if (- n <=? i) && (i <? 0) then nth_error l (Z.to_nat (n + i))
  else None.

(** *** The [utf-8] codec with [errors='ignore']

    The decoder never fails: the bytes of a malformed sequence are skipped and
    decoding goes on after them; a sequence cut short by the end of the data
    is dropped. *)

Definition is_continuation (b : N) : bool := N.eqb (N.land b 192) 128.

Definition cp2 (c0 c1 : N) : N :=
  N.lor (N.shiftl (N.land c0 31) 6) (N.land c1 63).
Definition cp3 (c0 c1 c2 : N) : N :=
  N.lor (N.shiftl (N.land c0 15) 12)
        (N.lor (N.shiftl (N.land c1 63) 6) (N.land c2 63)).
Definition cp4 (c0 c1 c2 c3 : N) : N :=
  N.lor (N.shiftl (N.land c0 7) 18)
        (N.lor (N.shiftl (N.land c1 63) 12)
               (N.lor (N.shiftl (N.land c2 63) 6) (N.land c3 63))).

(** Whether the second byte [c1] is rejected after the lead byte [c0] of a
    three-byte (resp. four-byte) sequence: not a continuation byte, an
    overlong form, a surrogate, or a value above U+10FFFF. *)
Definition bad_second3 (c0 c1 : N) : bool :=
  negb (is_continuation c1)
  || (if N.ltb c1 160 then N.eqb c0 224 else N.eqb c0 237).
Definition bad_second4 (c0 c1 : N) : bool :=
  negb (is_continuation c1)
  || (if N.ltb c1 144 then N.eqb c0 240 else N.eqb c0 244).

Fixpoint utf8_decode_ignore (bs : list byte) : str :=
  match bs with
  | [] => []
  | b0 :: t0 =>
      let c0 := Byte.to_N b0 in
      if N.ltb c0 128 then c0 :: utf8_decode_ignore t0
      else if N.ltb c0 194 then utf8_decode_ignore t0
      else if N.ltb c0 224 then
        match t0 with
        | [] => []
        | b1 :: t1 =>
            let c1 := Byte.to_N b1 in
            if is_continuation c1 then cp2 c0 c1 :: utf8_decode_ignore t1
            else utf8_decode_ignore t0
        end
      else if N.ltb c0 240 then
        match t0 with
        | [] => []
        | b1 :: t1 =>
            let c1 := Byte.to_N b1 in
            if bad_second3 c0 c1 then utf8_decode_ignore t0
            else
              match t1 with
              | [] => []
              | b2 :: t2 =>
                  let c2 := Byte.to_N b2 in
                  if is_continuation c2
                  then cp3 c0 c1 c2 :: utf8_decode_ignore t2
                  else utf8_decode_ignore t1
              end
        end
      else if N.ltb c0 245 then
        match t0 with
        | [] => []
        | b1 :: t1 =>
            let c1 := Byte.to_N b1 in
            if bad_second4 c0 c1 then utf8_decode_ignore t0
            else
              match t1 with
              | [] => []
              | b2 :: t2 =>
                  let c2 := Byte.to_N b2 in
                  if negb (is_continuation c2) then utf8_decode_ignore t1
                  else
                    match t2 with
                    | [] => []
                    | b3 :: t3 =>
                        let c3 := Byte.to_N b3 in
                        if is_continuation c3
                        then cp4 c0 c1 c2 c3 :: utf8_decode_ignore t3
                        else utf8_decode_ignore t2
                    end
              end
        end
      else utf8_decode_ignore t0
  end.

(** *** Text mode with universal newlines: ["\r\n"] and ["\r"] read as ["\n"] *)
Fixpoint translate_newlines (s : str) : str :=
  match s with
  | [] => []
  | c :: t =>
      if N.eqb c CR then
        NL :: match t with
              | [] => []
              | c' :: t' =>
                  if N.eqb c' NL then translate_newlines t'
                  else translate_newlines t
              end
      else c :: translate_newlines t
  end.

(** [f.readlines()]: the text cut after every ["\n"], line ends kept. *)
Fixpoint split_lines (s : str) : list str :=
  match s with
  | [] => []
  | c :: t =>
      if N.eqb c NL then [c] :: split_lines t
      else
        match split_lines t with
        | [] => [[c]]
        | l :: ls => (c :: l) :: ls
        end
  end.

(** The bytes of a Rocq string, to write file contents. *)
Definition bytes_of (s : string) : list byte := list_byte_of_string s.

(** ASCII lower-casing; [str.lower] agrees with it on ASCII text. *)
Definition ascii_lower_char (c : N) : N :=
  if (N.leb 65 c && N.leb c 90)%bool then (c + 32)%N else c.
Definition ascii_lower (s : str) : str := map ascii_lower_char s.

(** *** [str.lower]

    The interpreter lower-cases a string character by character with the
    full lower-case mapping of the Unicode database, except for the Greek
    capital sigma, whose image depends on its neighbours: it becomes the
    final small sigma when a cased character comes before it (case-ignorable
    characters skipped) and no cased character comes after it (likewise).
    The three tables of the database are the fields of [case_tables]. *)
Record case_tables : Type := CaseTables {
  to_lower_full : N -> str;
  is_cased : N -> bool;
  is_case_ignorable : N -> bool
}.

Definition CAPITAL_SIGMA : N := 931%N.
Definition FINAL_SIGMA : N := 962%N.
Definition SMALL_SIGMA : N := 963%N.

(** The first character of [s] that is not case-ignorable. *)
Fixpoint skip_ignorable (T : case_tables) (s : str) : option N :=
  match s with
  | [] => None
  | c :: t => if is_case_ignorable T c then skip_ignorable T t else Some c
  end.

(** The image of a capital sigma with the characters [before] it, nearest
    first, and the characters [after] it. *)
Definition handle_capital_sigma (T : case_tables) (before after : str) : N :=
  let final_sigma :=
    match skip_ignorable T before with
    | None => false
    | Some c =>
        is_cased T c
        && match skip_ignorable T after with
           | None => true
           | Some c' => negb (is_cased T c')
           end
    end in
  if final_sigma then FINAL_SIGMA else SMALL_SIGMA.

Fixpoint lower_from (T : case_tables) (before : str) (s : str) : str :=
  match s with
  | [] => []
  | c :: after =>
      (if N.eqb c CAPITAL_SIGMA
       then [handle_capital_sigma T before after]
       else to_lower_full T c)
        ++ lower_from T (c :: before) after
  end.

Definition str_lower (T : case_tables) (s : str) : str := lower_from T [] s.

(** The tables on ASCII and on the Greek capital and small letters; other
    code points are left as they are. *)
Definition basic_tables : case_tables :=
  {| to_lower_full := fun c =>
       if (N.leb 65 c && N.leb c 90)%bool then [(c + 32)%N]
       else if (N.leb 913 c && N.leb c 937 && negb (N.eqb c 930))%bool
            then [(c + 32)%N]
            else [c];
     is_cased := fun c =>
       ((N.leb 65 c && N.leb c 90) || (N.leb 97 c && N.leb c 122)
        || (N.leb 913 c && N.leb c 937 && negb (N.eqb c 930))
        || (N.leb 945 c && N.leb c 969))%bool;
     is_case_ignorable := fun c =>
       (N.eqb c 39 || N.eqb c 46 || N.eqb c 58 || N.eqb c 94
        || N.eqb c 96)%bool |}.

End Py.

(** ** The server *)

Module FileSearch.
Import Py.

(** *** Exceptions and the error monad *)

(** The exceptions the handlers of the server tell apart.  Every other
    exception is an [OtherException] carrying [str(e)]. *)
Inductive exn : Type :=
| PermissionError
| UnicodeDecodeError
| OtherException (msg : str).

Inductive result (A : Type) : Type :=
| Ok (a : A)
| Raise (e : exn).
Arguments Ok {A} a.
Arguments Raise {A} e.

Definition bind {A B} (m : result A) (k : A -> result B) : result B :=
  match m with
  | Ok a => k a
  | Raise e => Raise e
  end.

Notation "x <- m ;; k" := (bind m (fun x => k))
  (at level 61, m at next level, right associativity).

(** *** The file system *)

(** How opening or reading a file fails: [PermissionError], or another
    [OSError] with its message. *)
Inductive os_error : Type :=
| EACCES
| EOTHER (msg : str).

Inductive file_content : Type :=
| Content (bytes : list byte)
| Unreadable (e : os_error).

(** A directory entry as [os.walk] sees it: a sub-directory it descends into,
    or anything else, listed among the files.  A directory that cannot be
    listed is walked like an empty one ([os.walk] ignores the error). *)
#[local] Set Warnings "-register-all".
Inductive entry : Type :=
| File (name : str) (c : file_content)
| Dir (name : str) (children : list entry).

Inductive path_kind : Type :=
| Missing
| Regular (c : file_content)
| Directory (children : list entry)
| Special.

Definition filesystem := str -> path_kind.

(** [os.path.exists], [os.path.isfile], [os.path.isdir] *)
Definition path_exists (fs : filesystem) (p : str) : bool :=
  match fs p with Missing => false | _ => true end.
Definition isfile (fs : filesystem) (p : str) : bool :=
  match fs p with Regular _ => true | _ => false end.
Definition isdir (fs : filesystem) (p : str) : bool :=
  match fs p with Directory _ => true | _ => false end.

(** The entries below a directory. *)
Definition listdir (fs : filesystem) (p : str) : list entry :=
  match fs p with Directory children => children | _ => [] end.

(** [with open(p, 'r', encoding='utf-8', errors='ignore') as f:
       lines = f.readlines()] *)
Definition open_readlines (c : file_content) : result (list str) :=
  match c with
  | Unreadable EACCES => Raise PermissionError
  | Unreadable (EOTHER msg) => Raise (OtherException msg)
  | Content bytes =>
      Ok (split_lines (translate_newlines (utf8_decode_ignore bytes)))
  end.

(** Reading the file at a path; opening anything but a regular file is an
    [OSError]. *)
Definition read_path (fs : filesystem) (p : str) : result (list str) :=
  match fs p with
  | Regular c => open_readlines c
  | _ => Raise (OtherException (lit "cannot open"))
  end.

(** [os.walk(top)], top-down: a directory's own files first, then its
    sub-directories in listing order.  [root] is kept as the list of names
    below the search root. *)
Fixpoint files_of (es : list entry) : list (str * file_content) :=
  match es with
  | [] => []
  | File name c :: es' => (name, c) :: files_of es'
  | Dir _ _ :: es' => files_of es'
  end.

Fixpoint walk_entry (root : list str) (e : entry)
  : list (list str * list (str * file_content)) :=
  match e with
  | File _ _ => []
  | Dir name children =>
      (root ++ [name], files_of children)
        :: flat_map (walk_entry (root ++ [name])) children
  end.

Definition walk (children : list entry)
  : list (list str * list (str * file_content)) :=
  ([], files_of children) :: flat_map (walk_entry []) children.

(** [os.path.relpath(os.path.join(root, file), directory_path)]: the names
    from the search root down to the file, joined by the separator. *)
Definition rel_path (root : list str) (file : str) : str :=
  join (lit "/") (root ++ [file]).

(** [os.path.splitext] (posixpath). *)
Fixpoint rfind_from (i : Z) (c : N) (s : str) : Z :=
  match s with
  | [] => -1
  | a :: t =>
      let r := rfind_from (i + 1) c t in
      if 0 <=? r then r else if N.eqb a c then i else -1
  end.
Definition rfind (s : str) (c : N) : Z := rfind_from 0 c s.

Definition DOT : N := 46%N.
Definition SEP : N := 47%N.

Definition splitext (p : str) : str * str :=
  let sepIndex := rfind p SEP in
  let dotIndex := rfind p DOT in
  if (sepIndex <? dotIndex)
     && existsb (fun i => match index p i with
                          | Some c => negb (N.eqb c DOT)
                          | None => false
                          end)
                (range (sepIndex + 1) dotIndex)
  then (firstn (Z.to_nat dotIndex) p, skipn (Z.to_nat dotIndex) p)
  else (p, []).

(** *** A [dict] with string keys, in insertion order *)
Section Dict.
Context {V : Type}.
Definition dict := list (str * V).

(** [d[k] = v] *)
Fixpoint dict_set (d : dict) (k : str) (v : V) : dict :=
  match d with
  | [] => [(k, v)]
  | (k', v') :: d' =>
      if str_eqb k k' then (k', v) :: d' else (k', v') :: dict_set d' k v
  end.

Definition keys (d : dict) : list str := map fst d.
Definition values (d : dict) : list V := map snd d.
End Dict.
Arguments dict V : clear implicits.

(** *** Matches *)

(** A match of the file search. *)
Record file_match : Type := FileMatch {
  line_number : Z;
  line : str;
  context : list str
}.

(** A match of the directory search. *)
Record dir_match : Type := DirMatch {
  dir_line_number : Z;
  dir_line : str
}.

Definition text_extensions : list str :=
  map lit [".py"; ".txt"; ".md"; ".json"; ".xml"; ".html"; ".css"; ".js";
           ".ts"; ".java"; ".cpp"; ".c"; ".h"; ".hpp"; ".rs"; ".go"; ".rb";
           ".php"; ".sh"; ".yaml"; ".yml"; ".toml"; ".ini"; ".cfg";
           ".conf"]%string.

Definition marker (is_match : bool) : str :=
  if is_match then lit ">>>" else lit "   ".

(** [f"{marker} {ctx_line_num:4d}: {ctx_line}"] *)
Definition format_context (is_match : bool) (ctx_line_num : Z) (ctx_line : str)
  : str :=
  marker is_match ++ lit " " ++ format_4d ctx_line_num ++ lit ": " ++ ctx_line.

Definition index_error : exn := OtherException (lit "list index out of range").

Section Search.

(** [str.lower], from the interpreter's Unicode tables. *)
Variable lower : str -> str.

Variable keyword : str.
Variable case_sensitive : bool.

Definition search_keyword : str :=
  if case_sensitive then keyword else lower keyword.

Definition line_content (line : str) : str :=
  if case_sensitive then line else lower line.

(** [search_keyword in line_content] *)
Definition line_matches (line : str) : bool :=
  contains search_keyword (line_content line).

(** **** [search_keyword_in_file] *)

(** The loop over [range(start_line, end_line + 1)]. *)
Fixpoint collect_context (lines : list str) (line_num : Z)
         (ctx_line_nums : list Z) : result (list str) :=
  match ctx_line_nums with
  | [] => Ok []
  | ctx_line_num :: rest =>
      match index lines (ctx_line_num - 1) with
      | None => Raise index_error
      | Some l =>
          let ctx_line := rstrip_nl l in
          context <- collect_context lines line_num rest ;;
          Ok (format_context (ctx_line_num =? line_num) ctx_line_num ctx_line
                :: context)
      end
  end.

(** The loop over [enumerate(lines, start=1)]. *)
Fixpoint scan_file (lines : list str) (context_lines : Z)
         (numbered : list (Z * str)) : result (list file_match) :=
  match numbered with
  | [] => Ok []
  | (line_num, line) :: rest =>
      if line_matches line then
        let start_line := Z.max 1 (line_num - context_lines) in
        let end_line :=
          Z.min (Z.of_nat (List.length lines)) (line_num + context_lines) in
        context <- collect_context lines line_num
                     (range start_line (end_line + 1)) ;;
        matches <- scan_file lines context_lines rest ;;
        Ok (FileMatch line_num (rstrip_nl line) context :: matches)
      else scan_file lines context_lines rest
  end.

Definition file_matches_of (lines : list str) (context_lines : Z)
  : result (list file_match) :=
  scan_file lines context_lines (enumerate1 lines).

(** The report of a successful file search. *)
Fixpoint format_matches (i : Z) (matches : list file_match) : str :=
  match matches with
  | [] => []
  | m :: rest =>
      lit "--- Match " ++ str_of_int i ++ lit " (Line "
        ++ str_of_int (line_number m) ++ lit ") ---" ++ [NL]
        ++ join [NL] (context m) ++ [NL; NL]
        ++ format_matches (i + 1) rest
  end.

Definition no_match_in_file (file_path : str) : str :=
  lit "No matches found for '" ++ keyword ++ lit "' in file '"
    ++ file_path ++ lit "'.".

Definition decode_error (file_path : str) : str :=
  lit "Error: Cannot decode file '" ++ file_path
    ++ lit "'. It may be a binary file.".

Definition file_report (file_path : str) (matches : list file_match) : str :=
  match matches with
  | [] => no_match_in_file file_path
  | _ =>
      lit "Found " ++ str_of_int (Z.of_nat (List.length matches))
        ++ lit " match(es) for '" ++ keyword ++ lit "' in '" ++ file_path
        ++ lit "':" ++ [NL; NL] ++ format_matches 1 matches
  end.

Definition search_keyword_in_file (fs : filesystem) (file_path : str)
           (context_lines : Z) : str :=
  if negb (path_exists fs file_path) then
    lit "Error: File '" ++ file_path ++ lit "' does not exist."
  else if negb (isfile fs file_path) then
    lit "Error: '" ++ file_path ++ lit "' is not a file."
  else
    match
      lines <- read_path fs file_path ;;
      matches <- file_matches_of lines context_lines ;;
      Ok (file_report file_path matches)
    with
    | Ok report => report
    | Raise PermissionError =>
        lit "Error: Permission denied. Cannot read file '" ++ file_path
          ++ lit "'."
    | Raise UnicodeDecodeError => decode_error file_path
    | Raise (OtherException e) =>
        lit "Error reading file '" ++ file_path ++ lit "': " ++ e
    end.

(** **** [search_keyword_in_directory] *)

Variable file_pattern : option str.

(** The filter at the head of the loop body: [true] when the file is
    searched, [false] when the loop [continue]s.  An empty [file_pattern]
    is falsy, like [None]. *)
Definition file_included (file : str) : bool :=
  match file_pattern with
  | Some ((_ :: _) as pattern) => endswith file pattern
  | _ =>
      let ext := snd (splitext file) in
      existsb (str_eqb (lower ext)) text_extensions
  end.

(** The loop over [enumerate(lines, start=1)], without context. *)
Fixpoint scan_lines (numbered : list (Z * str)) : list dir_match :=
  match numbered with
  | [] => []
  | (line_num, line) :: rest =>
      if line_matches line
      then DirMatch line_num (rstrip_nl line) :: scan_lines rest
      else scan_lines rest
  end.

(** The [try] block of the loop body and its handlers: [r] is the outcome
    of reading the file; every exception leaves the mapping as it is. *)
Definition record_file (root : list str)
           (matches_by_file : dict (list dir_match)) (file : str)
           (r : result (list str)) : dict (list dir_match) :=
  match
    lines <- r ;;
    Ok (scan_lines (enumerate1 lines))
  with
  | Ok [] => matches_by_file
  | Ok file_matches =>
      dict_set matches_by_file (rel_path root file) file_matches
  | Raise PermissionError => matches_by_file
  | Raise UnicodeDecodeError => matches_by_file
  | Raise (OtherException _) => matches_by_file
  end.

(** The body of the loop over [files]: filter, then read, scan, record. *)
Definition visit_file (root : list str)
           (matches_by_file : dict (list dir_match))
           (f : str * file_content) : dict (list dir_match) :=
  let (file, c) := f in
  if negb (file_included file) then matches_by_file
  else record_file root matches_by_file file (open_readlines c).

(** The loop over [os.walk(directory_path)]. *)
Definition search_tree (children : list entry) : dict (list dir_match) :=
  fold_left
    (fun matches_by_file rf =>
       fold_left (visit_file (fst rf)) (snd rf) matches_by_file)
    (walk children) [].

Definition no_match_in_directory (directory_path : str) : str :=
  lit "No matches found for '" ++ keyword ++ lit "' in directory '"
    ++ directory_path ++ lit "'.".

Definition format_file_matches (file_matches : list dir_match) : str :=
  flat_map
    (fun m => lit "   Line " ++ str_of_int (dir_line_number m) ++ lit ": "
                ++ dir_line m ++ [NL])
    file_matches.

(** The page marker written at the head of each file block, as the source
    text has it. *)
Definition page_mark : str := [240; 376; 8220; 8222]%N.

Definition format_files (matches_by_file : dict (list dir_match)) : str :=
  flat_map
    (fun kv =>
       page_mark ++ lit " " ++ fst kv ++ lit " ("
         ++ str_of_int (Z.of_nat (List.length (snd kv)))
         ++ lit " match(es))" ++ [NL]
         ++ format_file_matches (snd kv) ++ [NL])
    matches_by_file.

Definition directory_report (directory_path : str)
           (matches_by_file : dict (list dir_match)) : str :=
  match matches_by_file with
  | [] => no_match_in_directory directory_path
  | _ =>
      lit "Found matches for '" ++ keyword ++ lit "' in "
        ++ str_of_int (Z.of_nat (List.length matches_by_file))
        ++ lit " file(s):" ++ [NL; NL] ++ format_files matches_by_file
  end.

(** Nothing in the walk raises outside the per-file handler, so the
    outermost handler of the source has no case here. *)
Definition search_keyword_in_directory (fs : filesystem)
           (directory_path : str) : str :=
  if negb (path_exists fs directory_path) then
    lit "Error: Directory '" ++ directory_path ++ lit "' does not exist."
  else if negb (isdir fs directory_path) then
    lit "Error: '" ++ directory_path ++ lit "' is not a directory."
  else
    directory_report directory_path (search_tree (listdir fs directory_path)).

End Search.

End FileSearch.

Import Py FileSearch.

(** * Properties *)

(** ** Vocabulary of the statements *)

(** [a] occurs in [b] as a contiguous run of characters. *)
Definition substring (a b : str) : Prop := exists pre post, b = pre ++ a ++ post.

(** The lines of a file with their 1-based numbers, from number [k] on. *)
Definition numbered_from {A} (k : Z) (l : list A) : list (Z * A) :=
  combine (range k (k + Z.of_nat (List.length l))) l.

(** The numbers of the lines that pass the keyword test, top to bottom. *)
Definition matching_numbers (lower : str -> str) (keyword : str)
           (case_sensitive : bool) (lines : list str) : list Z :=
  map fst (filter (fun p => line_matches lower keyword case_sensitive (snd p))
                  (enumerate1 lines)).

(** The context window of line [n]: the line numbers from
    [max(1, n - C)] to [min(total, n + C)], both included. *)
Definition window (lines : list str) (C n : Z) : list Z :=
  range (Z.max 1 (n - C)) (Z.min (Z.of_nat (List.length lines)) (n + C) + 1).

(** The text of line [i] as shown in a context block of the match at [n]. *)
Definition context_entry (lines : list str) (n i : Z) : str :=
  format_context (i =? n) i (rstrip_nl (nth (Z.to_nat (i - 1)) lines [])).

(** The lines read from a file's bytes. *)
Definition lines_of (bytes : list byte) : list str :=
  split_lines (translate_newlines (utf8_decode_ignore bytes)).

(** What a file of the walk contributes to the directory search: its matches
    when it passes the filter and can be read, nothing otherwise. *)
Definition hits (lower : str -> str) (keyword : str) (case_sensitive : bool)
           (file_pattern : option str) (f : str * file_content)
  : list dir_match :=
  match snd f with
  | Content bytes =>
      if file_included lower file_pattern (fst f)
      then scan_lines lower keyword case_sensitive (enumerate1 (lines_of bytes))
      else []
  | Unreadable _ => []
  end.

(** A directory tree without the files that [keep] rejects. *)
Fixpoint prune_entry (keep : str * file_content -> bool) (e : entry)
  : list entry :=
  match e with
  | File name c => if keep (name, c) then [e] else []
  | Dir name children => [Dir name (flat_map (prune_entry keep) children)]
  end.

Definition prune (keep : str * file_content -> bool) (children : list entry)
  : list entry :=
  flat_map (prune_entry keep) children.

(** One step of the walk with the files that [keep] rejects left out. *)
Definition keep_files (keep : str * file_content -> bool)
           (rf : list str * list (str * file_content))
  : list str * list (str * file_content) :=
  (fst rf, filter keep (snd rf)).

(** The two nested loops of the directory search over a given walk, from the
    mapping [d]. *)
Definition visit_walk (lower : str -> str) (keyword : str)
           (case_sensitive : bool) (file_pattern : option str)
           (d : dict (list dir_match))
           (w : list (list str * list (str * file_content)))
  : dict (list dir_match) :=
  fold_left
    (fun d rf =>
       fold_left (visit_file lower keyword case_sensitive file_pattern (fst rf))
                 (snd rf) d)
    w d.

Definition readable (f : str * file_content) : bool :=
  match snd f with
  | Content _ => true
  | Unreadable _ => false
  end.

(** A file system with one directory at [directory_path]. *)
Definition one_directory (directory_path : str) (children : list entry)
  : filesystem :=
  fun p => if str_eqb p directory_path then Directory children else Missing.

(** A file system with one regular file at [file_path]. *)
Definition one_file (file_path : str) (c : file_content) : filesystem :=
  fun p => if str_eqb p file_path then Regular c else Missing.

(** The three-line file [alpha / BETA / gamma]. *)
Definition greek_bytes : list byte :=
  bytes_of "alpha" ++ [x0a] ++ bytes_of "BETA" ++ [x0a] ++ bytes_of "gamma".
Definition greek_fs : filesystem := one_file (lit "f.txt") (Content greek_bytes).

(** Content that cannot be read as text at all: there are bytes, and not one
    of them decodes to a character. *)
Definition no_text_at_all (bytes : list byte) : Prop :=
  bytes <> [] /\ utf8_decode_ignore bytes = [].

(** A file of two bytes that occur in no UTF-8 text. *)
Definition blob_fs : filesystem := one_file (lit "blob") (Content [xff; xfe]).

(** The line [alpha] with a stray byte in the middle. *)
Definition stray_bytes : list byte := bytes_of "al" ++ [xff] ++ bytes_of "pha".

(** A small project directory: two sources, one of them unreadable, a file
    without extension and a text file. *)
Definition project_tree : list entry :=
  [ File (lit "a.py") (Content (bytes_of "x = beta"));
    Dir (lit "sub")
        [ File (lit "snappy") (Content (bytes_of "beta"));
          File (lit "locked.py") (Unreadable EACCES) ];
    File (lit "notes.txt") (Content greek_bytes) ].
Definition project_fs : filesystem := one_directory (lit "proj") project_tree.

(** An answer that reports a failure: every error message of the two tools
    begins with [Error]. *)
Definition is_error (report : str) : bool := startswith report (lit "Error").

(** The files of a walk in visiting order, each with the root it is listed
    under. *)
Definition walk_files (children : list entry)
  : list (list str * (str * file_content)) :=
  flat_map (fun rf => map (pair (fst rf)) (snd rf)) (walk children).

(** The key under which a file of the walk is recorded. *)
Definition file_key (rf : list str * (str * file_content)) : str :=
  rel_path (fst rf) (fst (snd rf)).

(** A relative path seen from the parent of the directory [name]. *)
Definition under (name : str) (k : str) : str := name ++ lit "/" ++ k.

(** The bytes of a text with every newline written as carriage return and
    newline. *)
Definition crlf_bytes (bytes : list byte) : list byte :=
  flat_map (fun b => if Byte.eqb b x0a then [x0d; x0a] else [b]) bytes.

(** The Greek capital letters alpha and sigma, one word, in UTF-8. *)
Definition alpha_sigma_bytes : list byte := [xce; x91; xce; xa3].
Definition alpha_sigma_fs : filesystem :=
  one_file (lit "g.txt") (Content alpha_sigma_bytes).

(** A directory with one text file that holds a single byte, which is no
    text. *)
Definition stray_tree : list entry := [ File (lit "blob.txt") (Content [xff]) ].

(** A project with Windows line ends and a file in a sub-directory. *)
Definition nested_tree : list entry :=
  [ File (lit "top.md") (Content (bytes_of "Beta" ++ [x0d; x0a] ++ bytes_of "x"));
    Dir (lit "src")
        [ File (lit "m.py") (Content (bytes_of "beta = 1"));
          Dir (lit "deep") [ File (lit "n.py") (Content (bytes_of "# BETA")) ] ] ].

(** ** Strings *)

Lemma startswith_spec (s p : str) :
  startswith s p = true <-> exists post, s = p ++ post.
Proof.
  revert s; induction p as [|a p IH]; intros [|b s]; simpl.
  - split; [intros _; now exists [] | reflexivity].
  - split; [intros _; now exists (b :: s) | reflexivity].
  - split; [discriminate | intros [post H]; discriminate].
  - rewrite andb_true_iff, N.eqb_eq, IH. split.
    + intros [-> [post ->]]. now exists post.
    + intros [post H]. injection H as -> ->. split; [reflexivity | now exists post].
Qed.

Lemma contains_spec (needle hay : str) :
  contains needle hay = true <-> substring needle hay.
Proof.
  unfold substring. induction hay as [|c hay IH].
  - cbn [contains]. rewrite orb_false_r, startswith_spec. split.
    + intros [post H]. exists [], post. exact H.
    + intros [pre [post H]]. destruct pre; simpl in H.
      * now exists post.
      * discriminate.
  - cbn [contains]. rewrite orb_true_iff, startswith_spec, IH. split.
    + intros [[post H] | [pre [post H]]].
      * exists [], post. exact H.
      * exists (c :: pre), post. simpl. now rewrite H.
    + intros [pre [post H]]. destruct pre as [|c' pre]; simpl in H.
      * left. now exists post.
      * right. injection H as _ H. now exists pre, post.
Qed.

Lemma contains_empty (hay : str) : contains [] hay = true.
Proof. destruct hay; reflexivity. Qed.

Lemma endswith_spec (s p : str) :
  endswith s p = true <-> exists pre, s = pre ++ p.
Proof.
  unfold endswith. rewrite startswith_spec. split.
  - intros [post H]. exists (rev post).
    rewrite <- (rev_involutive s), H, rev_app_distr, rev_involutive.
    reflexivity.
  - intros [pre ->]. exists (rev pre). apply rev_app_distr.
Qed.

Lemma str_eqb_eq (a b : str) : str_eqb a b = true <-> a = b.
Proof.
  unfold str_eqb. destruct (list_eq_dec N.eq_dec a b); split; congruence.
Qed.

(** ** Ranges, enumeration and indexing *)

Lemma range_length (a b : Z) : List.length (range a b) = Z.to_nat (b - a).
Proof. unfold range. now rewrite length_map, length_seq. Qed.

Lemma range_In (a b x : Z) : In x (range a b) <-> a <= x < b.
Proof.
  unfold range. rewrite in_map_iff. split.
  - intros [i [<- Hi]]. apply in_seq in Hi. lia.
  - intros H. exists (Z.to_nat (x - a)). split; [lia|]. apply in_seq. lia.
Qed.

Lemma range_cons (a b : Z) : a < b -> range a b = a :: range (a + 1) b.
Proof.
  intros H. unfold range.
  replace (Z.to_nat (b - a)) with (S (Z.to_nat (b - (a + 1)))) by lia.
  cbn [seq map]. f_equal; [lia|].
  rewrite <- seq_shift, map_map. apply map_ext. intros i. lia.
Qed.

Lemma range_nil (a b : Z) : b <= a -> range a b = [].
Proof.
  intros H. unfold range. now replace (Z.to_nat (b - a)) with 0%nat by lia.
Qed.

Lemma range_sorted (a b : Z) : StronglySorted Z.lt (range a b).
Proof.
  remember (Z.to_nat (b - a)) as n eqn:Hn. revert a Hn.
  induction n as [|n IH]; intros a Hn.
  - rewrite range_nil by lia. constructor.
  - rewrite range_cons by lia. constructor.
    + apply IH. lia.
    + apply Forall_forall. intros x Hx. apply range_In in Hx. lia.
Qed.

Lemma sorted_lt_NoDup (l : list Z) : StronglySorted Z.lt l -> NoDup l.
Proof.
  induction 1 as [|x l Hs IH Hx]; constructor; [|exact IH].
  intros Hin. rewrite Forall_forall in Hx. specialize (Hx x Hin). lia.
Qed.

Lemma range_NoDup (a b : Z) : NoDup (range a b).
Proof. apply sorted_lt_NoDup, range_sorted. Qed.

Lemma index_in_range {A} (l : list A) (i : Z) :
  0 <= i < Z.of_nat (List.length l) ->
  exists x, index l i = Some x /\ nth_error l (Z.to_nat i) = Some x.
Proof.
  intros H. unfold index.
  replace ((0 <=? i) && (i <? Z.of_nat (List.length l))) with true
    by (symmetry; apply andb_true_iff; split; [apply Z.leb_le | apply Z.ltb_lt]; lia).
  destruct (nth_error l (Z.to_nat i)) as [x|] eqn:E.
  - now exists x.
  - apply nth_error_None in E. lia.
Qed.

Lemma numbered_from_cons {A} (k : Z) (x : A) (l : list A) :
  numbered_from k (x :: l) = (k, x) :: numbered_from (k + 1) l.
Proof.
  unfold numbered_from. cbn [List.length].
  rewrite range_cons by lia. cbn [combine]. do 3 f_equal. lia.
Qed.

Lemma enumerate1_numbered {A} (l : list A) : enumerate1 l = numbered_from 1 l.
Proof. unfold enumerate1, numbered_from. do 2 f_equal. lia. Qed.

Lemma numbered_from_In {A} (k : Z) (l : list A) (n : Z) (x : A) :
  In (n, x) (numbered_from k l) <->
  k <= n /\ nth_error l (Z.to_nat (n - k)) = Some x.
Proof.
  revert k; induction l as [|y l IH]; intros k.
  - unfold numbered_from. rewrite range_nil by (cbn; lia). cbn. split; [tauto|].
    intros [_ H]. destruct (Z.to_nat (n - k)); discriminate.
  - rewrite numbered_from_cons. cbn [In]. rewrite IH. split.
    + intros [H | [Hk H]].
      * injection H as -> ->. split; [lia|]. now rewrite Z.sub_diag.
      * split; [lia|].
        replace (Z.to_nat (n - k)) with (S (Z.to_nat (n - (k + 1)))) by lia.
        exact H.
    + intros [Hk H]. destruct (Z.eq_dec n k) as [->|Hne].
      * left. rewrite Z.sub_diag in H. cbn in H. congruence.
      * right. split; [lia|].
        replace (Z.to_nat (n - k)) with (S (Z.to_nat (n - (k + 1)))) in H by lia.
        exact H.
Qed.

Lemma numbered_from_fst_sorted {A} (k : Z) (l : list A) (f : Z * A -> bool) :
  StronglySorted Z.lt (map fst (filter f (numbered_from k l))).
Proof.
  revert k; induction l as [|y l IH]; intros k.
  - unfold numbered_from. rewrite range_nil by (cbn; lia). constructor.
  - rewrite numbered_from_cons. cbn [filter].
    destruct (f (k, y)); [|apply IH].
    cbn [map fst]. constructor; [apply IH|].
    apply Forall_forall. intros n Hn. apply in_map_iff in Hn.
    destruct Hn as [[n' x] [<- Hn]]. apply filter_In in Hn.
    destruct Hn as [Hn _]. apply numbered_from_In in Hn. cbn. lia.
Qed.

(** ** The scan of a file *)

Section Scan.
Variable lower : str -> str.
Variable keyword : str.
Variable case_sensitive : bool.

Let matches_line := line_matches lower keyword case_sensitive.

Lemma collect_context_ok (lines : list str) (n : Z) (nums : list Z) :
  (forall i, In i nums -> 1 <= i <= Z.of_nat (List.length lines)) ->
  collect_context lines n nums = Ok (map (context_entry lines n) nums).
Proof.
  induction nums as [|i nums IH]; intros H; [reflexivity|].
  cbn [collect_context map].
  destruct (index_in_range lines (i - 1)) as [l [Hl Hn]].
  { specialize (H i (or_introl eq_refl)). lia. }
  rewrite Hl, IH by (intros j Hj; apply H; now right).
  cbn [bind]. unfold context_entry.
  now rewrite (nth_error_nth _ _ _ Hn).
Qed.

Lemma window_bounds (lines : list str) (C n i : Z) :
  In i (window lines C n) -> 1 <= i <= Z.of_nat (List.length lines).
Proof. unfold window. rewrite range_In. lia. Qed.

Lemma scan_file_ok (lines : list str) (C : Z) (numbered : list (Z * str)) :
  exists matches,
    scan_file lower keyword case_sensitive lines C numbered = Ok matches
    /\ map line_number matches
       = map fst (filter (fun p => matches_line (snd p)) numbered)
    /\ Forall (fun m => context m
                        = map (context_entry lines (line_number m))
                              (window lines C (line_number m))) matches.
Proof.
  induction numbered as [|[n l] numbered [ms [E [Hn Hc]]]].
  - exists []. repeat split; constructor.
  - cbn [scan_file filter snd]. fold (matches_line l).
    destruct (matches_line l).
    + fold (window lines C n).
      rewrite (collect_context_ok lines n) by apply window_bounds.
      rewrite E. cbn [bind]. eexists. split; [reflexivity|].
      cbn [map line_number fst]. split; [now rewrite Hn|].
      constructor; [reflexivity | exact Hc].
    + exists ms. auto.
Qed.

(** The file scan never raises, reports the matching lines in order, and
    attaches to each the entries of its window. *)
Lemma file_matches_of_ok (lines : list str) (C : Z) :
  exists matches,
    file_matches_of lower keyword case_sensitive lines C = Ok matches
    /\ map line_number matches
       = matching_numbers lower keyword case_sensitive lines
    /\ Forall (fun m => context m
                        = map (context_entry lines (line_number m))
                              (window lines C (line_number m))) matches.
Proof. apply scan_file_ok. Qed.

Lemma scan_lines_numbers (numbered : list (Z * str)) :
  map dir_line_number (scan_lines lower keyword case_sensitive numbered)
  = map fst (filter (fun p => matches_line (snd p)) numbered).
Proof.
  induction numbered as [|[n l] numbered IH]; [reflexivity|].
  cbn [scan_lines filter snd]. fold (matches_line l).
  destruct (matches_line l); cbn [map dir_line_number fst]; now rewrite IH.
Qed.

Lemma matching_numbers_sorted (lines : list str) :
  StronglySorted Z.lt (matching_numbers lower keyword case_sensitive lines).
Proof.
  unfold matching_numbers. rewrite enumerate1_numbered.
  apply numbered_from_fst_sorted.
Qed.

Lemma matching_numbers_In (lines : list str) (n : Z) :
  In n (matching_numbers lower keyword case_sensitive lines) <->
  1 <= n /\ exists l, nth_error lines (Z.to_nat (n - 1)) = Some l
                      /\ matches_line l = true.
Proof.
  unfold matching_numbers. rewrite enumerate1_numbered, in_map_iff. split.
  - intros [[n' l] [<- H]]. apply filter_In in H. destruct H as [H Hm].
    apply numbered_from_In in H. cbn in *. split; [lia|]. exists l. tauto.
  - intros [Hn [l [Hl Hm]]]. exists (n, l). split; [reflexivity|].
    apply filter_In. split; [|exact Hm]. apply numbered_from_In. tauto.
Qed.

End Scan.

(** ** The walk of a directory tree *)

Lemma entry_induction (P : entry -> Prop) :
  (forall name c, P (File name c)) ->
  (forall name children, Forall P children -> P (Dir name children)) ->
  forall e, P e.
Proof.
  intros HFile HDir. fix IH 1. intros [name c | name children].
  - apply HFile.
  - apply HDir. induction children as [|e es IHes]; constructor.
    + apply IH.
    + exact IHes.
Qed.

Lemma files_of_prune (keep : str * file_content -> bool) (es : list entry) :
  files_of (prune keep es) = filter keep (files_of es).
Proof.
  unfold prune. induction es as [|[name c | name children] es IH]; cbn.
  - reflexivity.
  - destruct (keep (name, c)); cbn; now rewrite IH.
  - exact IH.
Qed.

Lemma walk_entry_prune (keep : str * file_content -> bool) (e : entry) :
  forall root,
    flat_map (walk_entry root) (prune_entry keep e)
    = map (keep_files keep) (walk_entry root e).
Proof.
  induction e as [name c | name children IH] using entry_induction; intros root.
  - cbn. destruct (keep (name, c)); reflexivity.
  - cbn [prune_entry flat_map walk_entry map]. rewrite app_nil_r.
    fold (prune keep children). rewrite files_of_prune. unfold keep_files at 1.
    cbn [fst snd]. f_equal. unfold prune.
    induction IH as [|e es He _ IHes]; [reflexivity|].
    cbn [flat_map]. rewrite flat_map_app, map_app, He, IHes. reflexivity.
Qed.

Lemma walk_prune (keep : str * file_content -> bool) (children : list entry) :
  walk (prune keep children) = map (keep_files keep) (walk children).
Proof.
  unfold walk. cbn [map]. rewrite files_of_prune. unfold keep_files at 1.
  cbn [fst snd]. f_equal. unfold prune.
  induction children as [|e es IH]; [reflexivity|].
  cbn [flat_map]. rewrite flat_map_app, map_app, walk_entry_prune, IH.
  reflexivity.
Qed.

(** ** The result mapping *)

Section DictFacts.
Context {V : Type}.

Lemma dict_set_keys (d : dict V) (k : str) (v : V) (k' : str) :
  In k' (keys (dict_set d k v)) <-> k' = k \/ In k' (keys d).
Proof.
  induction d as [|[k0 v0] d IH]; cbn.
  - intuition congruence.
  - destruct (str_eqb k k0) eqn:E; cbn.
    + apply str_eqb_eq in E. subst. intuition congruence.
    + rewrite IH. intuition congruence.
Qed.

Lemma dict_set_values (P : V -> Prop) (d : dict V) (k : str) (v : V) :
  P v -> Forall P (values d) -> Forall P (values (dict_set d k v)).
Proof.
  intros Hv. induction d as [|[k0 v0] d IH]; cbn; intros H.
  - constructor; [exact Hv | constructor].
  - inversion H as [|? ? H0 Hd]; subst.
    destruct (str_eqb k k0); cbn; constructor; auto.
Qed.

End DictFacts.

Section Directory.
Variable lower : str -> str.
Variable keyword : str.
Variable case_sensitive : bool.
Variable file_pattern : option str.

Let visit := visit_file lower keyword case_sensitive file_pattern.
Let hit := hits lower keyword case_sensitive file_pattern.

(** Every exception of the per-file [try] block is swallowed. *)
Lemma record_file_raise (root : list str) (d : dict (list dir_match))
      (file : str) (e : exn) :
  record_file lower keyword case_sensitive root d file (Raise e) = d.
Proof. destruct e; reflexivity. Qed.

Lemma visit_file_hits (root : list str) (d : dict (list dir_match))
      (f : str * file_content) :
  visit root d f
  = match hit f with
    | [] => d
    | file_matches => dict_set d (rel_path root (fst f)) file_matches
    end.
Proof.
  destruct f as [file c]. unfold visit, hit, visit_file, hits. cbn [fst snd].
  destruct (file_included lower file_pattern file),  c as [bytes | [|msg]];
    cbv [negb record_file open_readlines bind lines_of];
    try destruct (scan_lines _ _ _ _); reflexivity.
Qed.

Local Abbreviation visit_all :=
  (visit_walk lower keyword case_sensitive file_pattern).

Lemma visit_walk_cons (d : dict (list dir_match)) root files w :
  visit_all d ((root, files) :: w)
  = visit_all (fold_left (visit root) files d) w.
Proof. reflexivity. Qed.

Lemma search_tree_visit_all (children : list entry) :
  search_tree lower keyword case_sensitive file_pattern children
  = visit_all [] (walk children).
Proof. reflexivity. Qed.

Lemma visit_files_keys (root : list str) files :
  forall d k,
    In k (keys (fold_left (visit root) files d)) <->
    In k (keys d)
    \/ exists f, In f files /\ hit f <> [] /\ k = rel_path root (fst f).
Proof.
  induction files as [|f files IH]; intros d k; cbn [fold_left].
  - split; [tauto | intros [H | [f [[] _]]]; exact H].
  - rewrite IH, visit_file_hits. destruct (hit f) as [|m ms] eqn:E.
    + split.
      * intros [H | [g [Hg H]]]; [tauto|]. right. exists g. cbn. tauto.
      * intros [H | [g [[<- | Hg] [Hne H]]]]; [tauto | congruence |].
        right. exists g. tauto.
    + rewrite dict_set_keys. split.
      * intros [[-> | H] | [g [Hg H]]]; [|tauto|].
        -- right. exists f. cbn. split; [tauto|]. split; [congruence | reflexivity].
        -- right. exists g. cbn. tauto.
      * intros [H | [g [[<- | Hg] [Hne H]]]]; [tauto | tauto |].
        right. exists g. tauto.
Qed.

Lemma visit_all_keys w :
  forall d k,
    In k (keys (visit_all d w)) <->
    In k (keys d)
    \/ exists root files f,
         In (root, files) w /\ In f files /\ hit f <> []
         /\ k = rel_path root (fst f).
Proof.
  induction w as [|[root files] w IH]; intros d k.
  - cbn. split; [tauto | intros [H | [r [fs [f [[] _]]]]]; exact H].
  - rewrite visit_walk_cons, IH, visit_files_keys. split.
    + intros [[H | [f [Hf H]]] | [r [fs [f [Hw H]]]]]; [tauto | |].
      * right. exists root, files, f. cbn. tauto.
      * right. exists r, fs, f. cbn. tauto.
    + intros [H | [r [fs [f [[Hw | Hw] H]]]]]; [tauto | |].
      * injection Hw as <- <-. left. right. exists f. tauto.
      * right. exists r, fs, f. tauto.
Qed.

Lemma visit_files_values (P : list dir_match -> Prop) (root : list str) files :
  (forall f, hit f <> [] -> P (hit f)) ->
  forall d, Forall P (values d) ->
            Forall P (values (fold_left (visit root) files d)).
Proof.
  intros HP. induction files as [|f files IH]; intros d Hd; cbn [fold_left].
  - exact Hd.
  - apply IH. rewrite visit_file_hits.
    destruct (hit f) as [|m ms] eqn:E; [exact Hd|].
    apply dict_set_values; [|exact Hd]. rewrite <- E. apply HP. congruence.
Qed.

Lemma visit_all_values (P : list dir_match -> Prop) w :
  (forall f, hit f <> [] -> P (hit f)) ->
  forall d, Forall P (values d) -> Forall P (values (visit_all d w)).
Proof.
  intros HP. induction w as [|[root files] w IH]; intros d Hd.
  - exact Hd.
  - rewrite visit_walk_cons. apply IH. now apply visit_files_values.
Qed.

(** Files that contribute nothing can be removed from the tree. *)
Lemma visit_files_filter (keep : str * file_content -> bool)
      (root : list str) files :
  (forall f, keep f = false -> hit f = []) ->
  forall d, fold_left (visit root) (filter keep files) d
            = fold_left (visit root) files d.
Proof.
  intros Hk. induction files as [|f files IH]; intros d; [reflexivity|].
  cbn [filter fold_left]. destruct (keep f) eqn:E.
  - apply IH.
  - rewrite IH, (visit_file_hits root d f), (Hk f E). reflexivity.
Qed.

Lemma search_tree_prune (keep : str * file_content -> bool)
      (children : list entry) :
  (forall f, keep f = false -> hit f = []) ->
  search_tree lower keyword case_sensitive file_pattern (prune keep children)
  = search_tree lower keyword case_sensitive file_pattern children.
Proof.
  intros Hk. rewrite !search_tree_visit_all, walk_prune.
  generalize (walk children) ([] : dict (list dir_match)).
  induction l as [|[root files] w IH]; intros d; [reflexivity|].
  cbn [map]. unfold keep_files at 1. cbn [fst snd].
  rewrite !visit_walk_cons, visit_files_filter by exact Hk. apply IH.
Qed.

Lemma search_tree_empty (children : list entry) :
  (forall root files f,
      In (root, files) (walk children) -> In f files -> hit f = []) ->
  search_tree lower keyword case_sensitive file_pattern children = [].
Proof.
  intros H. destruct (search_tree _ _ _ _ children) as [|[k v] d] eqn:E;
    [reflexivity|].
  assert (Hk : In k (keys (search_tree lower keyword case_sensitive
                             file_pattern children)))
    by (rewrite E; now left).
  rewrite search_tree_visit_all in Hk. apply visit_all_keys in Hk.
  destruct Hk as [[] | [root [files [f [Hw [Hf [Hne _]]]]]]].
  exfalso. apply Hne. eapply H; eassumption.
Qed.

End Directory.

(** ** [search_keyword_in_file] on a readable file *)

Lemma search_file_readable (lower : str -> str) (keyword : str)
      (case_sensitive : bool) (fs : filesystem) (file_path : str)
      (bytes : list byte) (C : Z) (matches : list file_match) :
  fs file_path = Regular (Content bytes) ->
  file_matches_of lower keyword case_sensitive (lines_of bytes) C = Ok matches ->
  search_keyword_in_file lower keyword case_sensitive fs file_path C
  = file_report keyword file_path matches.
Proof.
  intros Hfs Hm. unfold search_keyword_in_file, path_exists, isfile, read_path.
  rewrite Hfs. cbn [negb open_readlines bind]. fold (lines_of bytes).
  rewrite Hm. reflexivity.
Qed.

Lemma matching_numbers_bounds (lower : str -> str) (keyword : str)
      (case_sensitive : bool) (lines : list str) (n : Z) :
  In n (matching_numbers lower keyword case_sensitive lines) ->
  1 <= n <= Z.of_nat (List.length lines).
Proof.
  intros H. apply matching_numbers_In in H. destruct H as [Hn [l [Hl _]]].
  assert (Z.to_nat (n - 1) < List.length lines)%nat
    by (apply nth_error_Some; congruence).
  lia.
Qed.

Lemma format_context_marked (is_match : bool) (i : Z) (text : str) :
  startswith (format_context is_match i text) (lit ">>>") = is_match.
Proof. destruct is_match; reflexivity. Qed.

(** ** Lines that match, lines that do not *)

Lemma not_substring_contains (a b : str) :
  ~ substring a b <-> contains a b = false.
Proof.
  rewrite <- contains_spec. destruct (contains a b); split; congruence.
Qed.

Lemma map_eq_nil_inv {A B} (f : A -> B) (l : list A) : map f l = [] -> l = [].
Proof. destruct l; [reflexivity | discriminate]. Qed.

Lemma matching_numbers_none (lower : str -> str) (keyword : str)
      (case_sensitive : bool) (lines : list str) :
  Forall (fun l => ~ substring (search_keyword lower keyword case_sensitive)
                               (line_content lower case_sensitive l)) lines ->
  matching_numbers lower keyword case_sensitive lines = [].
Proof.
  intros H.
  destruct (matching_numbers lower keyword case_sensitive lines) as [|n r] eqn:E;
    [reflexivity|].
  assert (Hn : In n (matching_numbers lower keyword case_sensitive lines))
    by (rewrite E; now left).
  apply matching_numbers_In in Hn. destruct Hn as [_ [l [Hl Hm]]].
  apply nth_error_In in Hl. rewrite Forall_forall in H.
  apply contains_spec in Hm. exfalso. exact (H l Hl Hm).
Qed.

Lemma numbered_from_fst {A} (k : Z) (l : list A) :
  map fst (numbered_from k l) = range k (k + Z.of_nat (List.length l)).
Proof.
  revert k; induction l as [|x l IH]; intros k.
  - unfold numbered_from. now rewrite range_nil by (cbn; lia).
  - rewrite numbered_from_cons. cbn [map fst List.length]. rewrite IH.
    rewrite (range_cons k) by lia. do 2 f_equal. lia.
Qed.

Lemma matching_numbers_all (lower : str -> str) (keyword : str)
      (case_sensitive : bool) (lines : list str) :
  (forall l, line_matches lower keyword case_sensitive l = true) ->
  matching_numbers lower keyword case_sensitive lines
  = range 1 (Z.of_nat (List.length lines) + 1).
Proof.
  intros H. unfold matching_numbers.
  rewrite forallb_filter_id, enumerate1_numbered, numbered_from_fst.
  - f_equal. lia.
  - apply forallb_forall. intros [n l] _. apply H.
Qed.

(** The files listed in the result mapping of a directory search. *)
Lemma search_tree_keys (lower : str -> str) (keyword : str)
      (case_sensitive : bool) (file_pattern : option str)
      (children : list entry) (k : str) :
  In k (keys (search_tree lower keyword case_sensitive file_pattern children))
  <->
  exists root files file bytes,
    In (root, files) (walk children)
    /\ In (file, Content bytes) files
    /\ file_included lower file_pattern file = true
    /\ matching_numbers lower keyword case_sensitive (lines_of bytes) <> []
    /\ k = rel_path root file.
Proof.
  rewrite search_tree_visit_all, visit_all_keys. cbn [keys map In]. split.
  - intros [[] | [root [files [[file c] [Hw [Hf [Hne ->]]]]]]].
    unfold hits in Hne. cbn [fst snd] in *.
    destruct c as [bytes|e]; [|congruence].
    destruct (file_included lower file_pattern file) eqn:Hi; [|congruence].
    exists root, files, file, bytes. repeat (split; [assumption|]).
    split; [|reflexivity]. unfold matching_numbers.
    rewrite <- scan_lines_numbers. intros H. apply map_eq_nil_inv in H.
    congruence.
  - intros [root [files [file [bytes [Hw [Hf [Hi [Hne ->]]]]]]]]. right.
    exists root, files, (file, Content bytes). repeat (split; [assumption|]).
    split; [|reflexivity]. unfold hits. cbn [fst snd]. rewrite Hi.
    intros H. apply Hne. unfold matching_numbers.
    rewrite <- scan_lines_numbers, H. reflexivity.
Qed.

(** ** The decoder *)

Lemma utf8_decode_ascii (b : byte) (rest : list byte) :
  (Byte.to_N b < 128)%N ->
  utf8_decode_ignore (b :: rest) = Byte.to_N b :: utf8_decode_ignore rest.
Proof.
  intros H. cbn [utf8_decode_ignore]. cbv zeta.
  now rewrite (proj2 (N.ltb_lt _ _) H).
Qed.

Lemma utf8_decode_invalid_start (b : byte) (rest : list byte) :
  (128 <= Byte.to_N b < 194 \/ 245 <= Byte.to_N b)%N ->
  utf8_decode_ignore (b :: rest) = utf8_decode_ignore rest.
Proof.
  intros H. cbn [utf8_decode_ignore]. cbv zeta.
  destruct H as [[H1 H2] | H].
  - rewrite (proj2 (N.ltb_ge _ _) H1), (proj2 (N.ltb_lt _ _) H2). reflexivity.
  - rewrite !(proj2 (N.ltb_ge _ _)) by lia. reflexivity.
Qed.

(** ** The filter of the directory search *)

Lemma existsb_str_eqb (x : str) (l : list str) :
  existsb (str_eqb x) l = true <-> In x l.
Proof.
  rewrite existsb_exists. split.
  - intros [y [Hy E]]. apply str_eqb_eq in E. now subst.
  - intros H. exists x. split; [exact H | now apply str_eqb_eq].
Qed.

(** ** Lower-casing *)

Lemma lower_from_ascii (T : case_tables) (s : str) :
  (forall c, (c < 128)%N -> to_lower_full T c = [ascii_lower_char c]) ->
  Forall (fun c => (c < 128)%N) s ->
  forall before, lower_from T before s = ascii_lower s.
Proof.
  intros HT. induction 1 as [|c s Hc _ IH]; intros before; [reflexivity|].
  cbn [lower_from ascii_lower map].
  replace (N.eqb c CAPITAL_SIGMA) with false
    by (symmetry; apply N.eqb_neq; unfold CAPITAL_SIGMA; lia).
  rewrite (HT c Hc), IH. reflexivity.
Qed.

Lemma basic_tables_ascii (c : N) :
  (c < 128)%N -> to_lower_full basic_tables c = [ascii_lower_char c].
Proof.
  intros Hc. cbn [to_lower_full basic_tables]. unfold ascii_lower_char.
  destruct (N.leb 65 c && N.leb c 90)%bool; [reflexivity|].
  replace (N.leb 913 c) with false by (symmetry; apply N.leb_gt; lia).
  reflexivity.
Qed.

(** On ASCII text [str.lower] is ASCII lower-casing. *)
Lemma str_lower_basic_ascii (s : str) :
  Forall (fun c => (c < 128)%N) s -> str_lower basic_tables s = ascii_lower s.
Proof.
  intros H. apply lower_from_ascii; [exact basic_tables_ascii | exact H].
Qed.

Lemma ascii_lower_ascii (s : str) :
  Forall (fun c => (c < 128)%N) s ->
  Forall (fun c => (c < 128)%N) (ascii_lower s).
Proof.
  induction 1 as [|c s Hc _ IH]; [constructor|].
  cbn [ascii_lower map]. constructor; [|exact IH].
  unfold ascii_lower_char.
  destruct (N.leb 65 c && N.leb c 90)%bool eqn:E; [|exact Hc].
  apply andb_true_iff in E. destruct E as [_ E]. apply N.leb_le in E. lia.
Qed.

(** ** The tools on small inputs *)

Example file_report_greek :
  search_keyword_in_file ascii_lower (lit "beta") false greek_fs (lit "f.txt") 1
  = lit "Found 1 match(es) for 'beta' in 'f.txt':" ++ [NL; NL]
      ++ lit "--- Match 1 (Line 2) ---" ++ [NL]
      ++ lit "       1: alpha" ++ [NL]
      ++ lit ">>>    2: BETA" ++ [NL]
      ++ lit "       3: gamma" ++ [NL; NL].
Proof. reflexivity. Qed.

Example file_report_missing :
  search_keyword_in_file ascii_lower (lit "beta") false greek_fs (lit "g.txt") 1
  = lit "Error: File 'g.txt' does not exist.".
Proof. reflexivity. Qed.

Example file_report_locked :
  search_keyword_in_file ascii_lower (lit "beta") false
                         (one_file (lit "f.txt") (Unreadable EACCES))
                         (lit "f.txt") 1
  = lit "Error: Permission denied. Cannot read file 'f.txt'.".
Proof. reflexivity. Qed.

Example file_report_on_directory :
  search_keyword_in_file ascii_lower (lit "beta") false project_fs
                         (lit "proj") 1
  = lit "Error: 'proj' is not a file.".
Proof. reflexivity. Qed.

Example directory_report_project :
  search_keyword_in_directory ascii_lower (lit "beta") false None project_fs
                              (lit "proj")
  = lit "Found matches for 'beta' in 2 file(s):" ++ [NL; NL]
      ++ page_mark ++ lit " a.py (1 match(es))" ++ [NL]
      ++ lit "   Line 1: x = beta" ++ [NL; NL]
      ++ page_mark ++ lit " notes.txt (1 match(es))" ++ [NL]
      ++ lit "   Line 2: BETA" ++ [NL; NL].
Proof. reflexivity. Qed.

Example directory_report_on_file :
  search_keyword_in_directory ascii_lower (lit "beta") false None greek_fs
                              (lit "f.txt")
  = lit "Error: 'f.txt' is not a directory.".
Proof. reflexivity. Qed.

Example walk_project :
  map (fun rf => (fst rf, map fst (snd rf))) (walk project_tree)
  = [ ([], [lit "a.py"; lit "notes.txt"]);
      ([lit "sub"], [lit "snappy"; lit "locked.py"]) ].
Proof. reflexivity. Qed.

Example decode_examples :
  utf8_decode_ignore [x61; xff; xc3; xa9; xe2; x82; xac; xf0; x9f; x93; x84;
                      xed; xa0; x80; x62; xe2; x82]
  = [97; 233; 8364; 128196; 98]%N
  /\ lines_of (bytes_of "a" ++ [x0d; x0a] ++ bytes_of "b" ++ [x0d]
                 ++ bytes_of "c")
     = [lit "a" ++ [NL]; lit "b" ++ [NL]; lit "c"].
Proof. split; reflexivity. Qed.

Example splitext_examples :
  splitext (lit "a.b.py") = (lit "a.b", lit ".py")
  /\ splitext (lit ".py") = (lit ".py", [])
  /\ splitext (lit "snappy") = (lit "snappy", []).
Proof. repeat split; reflexivity. Qed.

(** * The claims *)

(** C1.  For every readable file and every context_lines value [C >= 0],
    [search_keyword_in_file] returns one match for each line that passes the
    keyword test, in order, and each match carries as its context the
    entries of exactly the lines [max(1, n - C) .. min(total, n + C)], both
    ends included: between 1 and [2C+1] of them, all inside the file, none
    twice, the matched line among them, and the entry of the matched line,
    and only that one, begins with the [>>>] marker. *)
Theorem context_window_exact
        (lower : str -> str) (keyword : str) (case_sensitive : bool)
        (fs : filesystem) (file_path : str) (bytes : list byte) (C : Z) :
  fs file_path = Regular (Content bytes) ->
  0 <= C ->
  exists matches,
    file_matches_of lower keyword case_sensitive (lines_of bytes) C = Ok matches
    /\ search_keyword_in_file lower keyword case_sensitive fs file_path C
       = file_report keyword file_path matches
    /\ map line_number matches
       = matching_numbers lower keyword case_sensitive (lines_of bytes)
    /\ Forall
         (fun m =>
            let n := line_number m in
            let total := Z.of_nat (List.length (lines_of bytes)) in
            let start_line := Z.max 1 (n - C) in
            let end_line := Z.min total (n + C) in
            context m = map (context_entry (lines_of bytes) n)
                            (range start_line (end_line + 1))
            /\ 1 <= Z.of_nat (List.length (context m)) <= 2 * C + 1
            /\ 1 <= start_line /\ start_line <= n <= end_line
            /\ end_line <= total
            /\ NoDup (range start_line (end_line + 1))
            /\ (forall i, In i (range start_line (end_line + 1)) <->
                          start_line <= i <= end_line)
            /\ (forall i, startswith (context_entry (lines_of bytes) n i)
                                     (lit ">>>") = (i =? n)))
         matches.
Proof.
  intros Hfs HC.
  destruct (file_matches_of_ok lower keyword case_sensitive (lines_of bytes) C)
    as [matches [E [Hn Hc]]].
  exists matches. split; [exact E|]. split.
  { now apply search_file_readable with (bytes := bytes). }
  split; [exact Hn|].
  rewrite Forall_forall in *. intros m Hm. cbv zeta.
  assert (Hb : 1 <= line_number m <= Z.of_nat (List.length (lines_of bytes))).
  { apply matching_numbers_bounds with lower keyword case_sensitive.
    rewrite <- Hn. now apply in_map. }
  specialize (Hc m Hm). unfold window in Hc. split; [exact Hc|].
  split. { rewrite Hc, length_map, range_length. lia. }
  repeat (split; [lia|]). split; [apply range_NoDup|]. split.
  - intros i. rewrite range_In. lia.
  - intros i. unfold context_entry. apply format_context_marked.
Qed.

Lemma context_window_exact_witness :
  greek_fs (lit "f.txt") = Regular (Content greek_bytes)
  /\ 0 <= 1
  /\ (exists matches,
      file_matches_of ascii_lower (lit "beta") false (lines_of greek_bytes) 1
      = Ok matches
      /\ search_keyword_in_file ascii_lower (lit "beta") false greek_fs
                                (lit "f.txt") 1
         = file_report (lit "beta") (lit "f.txt") matches
      /\ map line_number matches
         = matching_numbers ascii_lower (lit "beta") false
                            (lines_of greek_bytes)
      /\ Forall
           (fun m =>
              let n := line_number m in
              let total := Z.of_nat (List.length (lines_of greek_bytes)) in
              let start_line := Z.max 1 (n - 1) in
              let end_line := Z.min total (n + 1) in
              context m = map (context_entry (lines_of greek_bytes) n)
                              (range start_line (end_line + 1))
              /\ 1 <= Z.of_nat (List.length (context m)) <= 2 * 1 + 1
              /\ 1 <= start_line /\ start_line <= n <= end_line
              /\ end_line <= total
              /\ NoDup (range start_line (end_line + 1))
              /\ (forall i, In i (range start_line (end_line + 1)) <->
                            start_line <= i <= end_line)
              /\ (forall i, startswith (context_entry (lines_of greek_bytes) n i)
                                       (lit ">>>") = (i =? n)))
           matches)
  /\ matching_numbers ascii_lower (lit "beta") false (lines_of greek_bytes)
     = [2].
Proof.
  split; [reflexivity|]. split; [lia|]. split; [|reflexivity].
  apply (context_window_exact ascii_lower (lit "beta") false greek_fs
                              (lit "f.txt") greek_bytes 1).
  - reflexivity.
  - lia.
Defined.

(** C2 (amended).  A non-empty file_pattern is a raw suffix test on the file
    name: the directory search looks at exactly the files whose name ends with
    it, and lists those of them that can be read and have a matching line.
    So [.py] takes [a.py] but not [snappy], and [py] takes [copy.py] and
    [snappy].  An empty file_pattern counts as none given. *)
Theorem suffix_filter
        (lower : str -> str) (keyword : str) (case_sensitive : bool)
        (file_pattern : str) :
  file_pattern <> [] ->
  (forall file,
      file_included lower (Some file_pattern) file = true <->
      exists pre, file = pre ++ file_pattern)
  /\ (forall children k,
         In k (keys (search_tree lower keyword case_sensitive
                                 (Some file_pattern) children)) <->
         exists root files file bytes,
           In (root, files) (walk children)
           /\ In (file, Content bytes) files
           /\ (exists pre, file = pre ++ file_pattern)
           /\ matching_numbers lower keyword case_sensitive (lines_of bytes)
              <> []
           /\ k = rel_path root file)
  /\ file_included lower (Some (lit ".py")) (lit "a.py") = true
  /\ file_included lower (Some (lit ".py")) (lit "snappy") = false
  /\ file_included lower (Some (lit "py")) (lit "copy.py") = true
  /\ file_included lower (Some (lit "py")) (lit "snappy") = true
  /\ (forall file,
         file_included lower (Some []) file = file_included lower None file).
Proof.
  intros Hne.
  assert (Hinc : forall file,
             file_included lower (Some file_pattern) file = true <->
             exists pre, file = pre ++ file_pattern).
  { intros file. unfold file_included.
    destruct file_pattern as [|c pattern]; [congruence|].
    exact (endswith_spec file (c :: pattern)). }
  split; [exact Hinc|]. split; [|repeat split; reflexivity].
  intros children k. rewrite search_tree_keys.
  split; intros [root [files [file [bytes [Hw [Hf [Hi H]]]]]]];
    exists root, files, file, bytes; repeat (split; [assumption|]);
    (split; [apply Hinc; exact Hi | exact H]).
Qed.

Lemma suffix_filter_witness :
  lit ".py" <> []
  /\ (file_included ascii_lower (Some (lit ".py")) (lit "main.py") = true <->
      exists pre, lit "main.py" = pre ++ lit ".py")
  /\ keys (search_tree ascii_lower (lit "beta") false (Some (lit "py"))
                       project_tree)
     = [lit "a.py"; lit "sub/snappy"].
Proof.
  assert (Hne : lit ".py" <> []) by discriminate.
  split; [exact Hne|]. split.
  - exact (proj1 (suffix_filter ascii_lower (lit "beta") false (lit ".py") Hne)
                 (lit "main.py")).
  - reflexivity.
Defined.

(** C2 as stated fails: [snappy] does not end with [.py], so the pattern
    [.py] leaves it out; and under the empty pattern [snappy], which ends
    with it as every name does, is left out as well. *)
Lemma suffix_filter_counterexample :
  file_included ascii_lower (Some (lit ".py")) (lit "snappy") = false
  /\ keys (search_tree ascii_lower (lit "beta") false (Some (lit ".py"))
                       project_tree)
     = [lit "a.py"]
  /\ endswith (lit "snappy") [] = true
  /\ file_included ascii_lower (Some []) (lit "snappy") = false
  /\ keys (search_tree ascii_lower (lit "beta") false (Some []) project_tree)
     = [lit "a.py"; lit "notes.txt"].
Proof. repeat split; reflexivity. Qed.

(** C3 (amended).  The file is read with a decoder that cannot fail: bytes that
    start no character are dropped and the rest is searched.  Whatever the
    file system holds at the path, the answer is never the cannot-decode
    message; a readable file always gets the report of the matches found in
    its decoded text. *)
Theorem decoding_never_fails
        (lower : str -> str) (keyword : str) (case_sensitive : bool)
        (fs : filesystem) (file_path : str) (C : Z) :
  search_keyword_in_file lower keyword case_sensitive fs file_path C
  <> lit "Error: Cannot decode file '" ++ file_path
       ++ lit "'. It may be a binary file."
  /\ (forall bytes,
         fs file_path = Regular (Content bytes) ->
         exists matches,
           file_matches_of lower keyword case_sensitive
             (split_lines (translate_newlines (utf8_decode_ignore bytes))) C
           = Ok matches
           /\ search_keyword_in_file lower keyword case_sensitive fs file_path C
              = file_report keyword file_path matches)
  /\ (forall b rest,
         (128 <= Byte.to_N b < 194 \/ 245 <= Byte.to_N b)%N ->
         utf8_decode_ignore (b :: rest) = utf8_decode_ignore rest)
  /\ (forall b rest,
         (Byte.to_N b < 128)%N ->
         utf8_decode_ignore (b :: rest) = Byte.to_N b :: utf8_decode_ignore rest).
Proof.
  assert (Hread : forall bytes,
             fs file_path = Regular (Content bytes) ->
             exists matches,
               file_matches_of lower keyword case_sensitive (lines_of bytes) C
               = Ok matches
               /\ search_keyword_in_file lower keyword case_sensitive fs
                                         file_path C
                  = file_report keyword file_path matches).
  { intros bytes Hfs.
    destruct (file_matches_of_ok lower keyword case_sensitive (lines_of bytes) C)
      as [matches [E _]].
    exists matches. split; [exact E|].
    now apply search_file_readable with (bytes := bytes). }
  split; [|split; [exact Hread|split]].
  - destruct (fs file_path) as [|[bytes|[|msg]]|children|] eqn:Hfs.
    + unfold search_keyword_in_file, path_exists. rewrite Hfs. discriminate.
    + destruct (Hread bytes eq_refl) as [[|m ms] [_ ->]]; discriminate.
    + unfold search_keyword_in_file, path_exists, isfile, read_path.
      rewrite Hfs. discriminate.
    + unfold search_keyword_in_file, path_exists, isfile, read_path.
      rewrite Hfs. discriminate.
    + unfold search_keyword_in_file, path_exists, isfile. rewrite Hfs.
      discriminate.
    + unfold search_keyword_in_file, path_exists, isfile. rewrite Hfs.
      discriminate.
  - exact utf8_decode_invalid_start.
  - exact utf8_decode_ascii.
Qed.

Lemma decoding_never_fails_witness :
  one_file (lit "f.txt") (Content stray_bytes) (lit "f.txt")
  = Regular (Content stray_bytes)
  /\ (128 <= Byte.to_N xff < 194 \/ 245 <= Byte.to_N xff)%N
  /\ utf8_decode_ignore (xff :: bytes_of "pha")
     = utf8_decode_ignore (bytes_of "pha")
  /\ exists matches,
      file_matches_of ascii_lower (lit "alpha") false
        (split_lines (translate_newlines (utf8_decode_ignore stray_bytes))) 2
      = Ok matches
      /\ search_keyword_in_file ascii_lower (lit "alpha") false
           (one_file (lit "f.txt") (Content stray_bytes)) (lit "f.txt") 2
         = file_report (lit "alpha") (lit "f.txt") matches
      /\ map line_number matches = [1].
Proof.
  destruct (decoding_never_fails
              ascii_lower (lit "alpha") false
              (one_file (lit "f.txt") (Content stray_bytes)) (lit "f.txt") 2)
    as [_ [Hread [Hdrop _]]].
  assert (Hff : (128 <= Byte.to_N xff < 194 \/ 245 <= Byte.to_N xff)%N)
    by (right; cbn; lia).
  split; [reflexivity|]. split; [exact Hff|].
  split; [exact (Hdrop xff (bytes_of "pha") Hff)|].
  destruct (Hread stray_bytes eq_refl) as [matches [E R]].
  exists matches. split; [exact E|]. split; [exact R|].
  vm_compute in E. injection E as <-. reflexivity.
Defined.

(** C3 as stated fails on a file of two bytes that are no text at all: the
    answer is the no-match message, not the cannot-decode message. *)
Lemma decode_error_counterexample :
  search_keyword_in_file ascii_lower (lit "x") false blob_fs (lit "blob") 2
  = lit "No matches found for 'x' in file 'blob'."
  /\ ~ (search_keyword_in_file ascii_lower (lit "x") false blob_fs
                               (lit "blob") 2
        = decode_error (lit "blob")
        <-> no_text_at_all [xff; xfe]).
Proof.
  split; [reflexivity|]. intros [_ H].
  assert (Hn : no_text_at_all [xff; xfe]) by (split; [discriminate | reflexivity]).
  specialize (H Hn). vm_compute in H. discriminate H.
Qed.

(** C4.  In both operations a line gives at most one match, however often the
    keyword occurs in it, and the line numbers of a file's matches are 1-based
    and strictly increasing from top to bottom. *)
Theorem one_match_per_line_in_order
        (lower : str -> str) (keyword : str) (case_sensitive : bool) :
  (forall lines C,
      exists matches,
        file_matches_of lower keyword case_sensitive lines C = Ok matches
        /\ StronglySorted Z.lt (map line_number matches)
        /\ NoDup (map line_number matches)
        /\ Forall (fun m => 1 <= line_number m <= Z.of_nat (List.length lines))
                  matches)
  /\ (forall file_pattern children,
         Forall (fun file_matches =>
                   StronglySorted Z.lt (map dir_line_number file_matches)
                   /\ NoDup (map dir_line_number file_matches)
                   /\ Forall (fun m => 1 <= dir_line_number m) file_matches)
                (values (search_tree lower keyword case_sensitive file_pattern
                                     children)))
  /\ file_matches_of lower (lit "ab") true [lit "ab ab abab"] 0
     = Ok [FileMatch 1 (lit "ab ab abab")
                     [format_context true 1 (lit "ab ab abab")]]
  /\ scan_lines lower (lit "ab") true (enumerate1 [lit "ab ab abab"])
     = [DirMatch 1 (lit "ab ab abab")].
Proof.
  split; [|split; [|split; reflexivity]].
  - intros lines C.
    destruct (file_matches_of_ok lower keyword case_sensitive lines C)
      as [matches [E [Hn _]]].
    exists matches. split; [exact E|]. rewrite Hn.
    split; [apply matching_numbers_sorted|].
    split; [apply sorted_lt_NoDup, matching_numbers_sorted|].
    apply Forall_forall. intros m Hm.
    apply matching_numbers_bounds with lower keyword case_sensitive.
    rewrite <- Hn. now apply in_map.
  - intros file_pattern children. rewrite search_tree_visit_all.
    apply visit_all_values; [|constructor].
    intros [file c] Hne. unfold hits in *. cbn [fst snd] in *.
    destruct c as [bytes|e]; [|congruence].
    destruct (file_included lower file_pattern file); [|congruence].
    rewrite scan_lines_numbers.
    fold (matching_numbers lower keyword case_sensitive (lines_of bytes)).
    split; [apply matching_numbers_sorted|].
    split; [apply sorted_lt_NoDup, matching_numbers_sorted|].
    apply Forall_forall. intros m Hm.
    apply (in_map dir_line_number) in Hm. rewrite scan_lines_numbers in Hm.
    apply (matching_numbers_bounds lower keyword case_sensitive (lines_of bytes)).
    exact Hm.
Qed.

(** C5 (amended).  Without case sensitivity a line matches exactly when the
    lower-cased keyword occurs in the lower-cased line; with case sensitivity,
    exactly when the keyword occurs in the line as it is, so an occurrence in
    another casing does not match.  The file search and the directory search
    test lines the same way.  On ASCII text, ignoring case finds the keyword
    in any casing; [beta] finds the line [BETA] when case is ignored and does
    not when it is respected. *)
Theorem case_sensitivity_semantics
        (lower : str -> str) (keyword : str) (lines : list str) (C : Z) :
  (exists matches,
      file_matches_of lower keyword false lines C = Ok matches
      /\ forall n,
          In n (map line_number matches) <->
          1 <= n /\ exists l, nth_error lines (Z.to_nat (n - 1)) = Some l
                              /\ substring (lower keyword) (lower l))
  /\ (exists matches,
         file_matches_of lower keyword true lines C = Ok matches
         /\ forall n,
             In n (map line_number matches) <->
             1 <= n /\ exists l, nth_error lines (Z.to_nat (n - 1)) = Some l
                                 /\ substring keyword l)
  /\ (forall n,
         In n (map dir_line_number
                   (scan_lines lower keyword false (enumerate1 lines))) <->
         1 <= n /\ exists l, nth_error lines (Z.to_nat (n - 1)) = Some l
                             /\ substring (lower keyword) (lower l))
  /\ (forall n,
         In n (map dir_line_number
                   (scan_lines lower keyword true (enumerate1 lines))) <->
         1 <= n /\ exists l, nth_error lines (Z.to_nat (n - 1)) = Some l
                             /\ substring keyword l)
  /\ (exists matches,
         file_matches_of (str_lower basic_tables) (lit "beta") false
                         (lines_of greek_bytes) C
         = Ok matches
         /\ map line_number matches = [2])
  /\ file_matches_of (str_lower basic_tables) (lit "beta") true
                     (lines_of greek_bytes) C
     = Ok []
  /\ map dir_line_number
         (scan_lines (str_lower basic_tables) (lit "BeTa") false
                     (enumerate1 (lines_of greek_bytes))) = [2]
  /\ scan_lines (str_lower basic_tables) (lit "beta") true
                (enumerate1 (lines_of greek_bytes)) = []
  /\ ((forall s, Forall (fun c => (c < 128)%N) s -> lower s = ascii_lower s) ->
      forall occurrence pre post,
        Forall (fun c => (c < 128)%N) keyword ->
        Forall (fun c => (c < 128)%N) (pre ++ occurrence ++ post) ->
        ascii_lower occurrence = ascii_lower keyword ->
        line_matches lower keyword false (pre ++ occurrence ++ post) = true).
Proof.
  assert (Hin : forall cs n,
             In n (matching_numbers lower keyword cs lines) <->
             1 <= n /\ exists l, nth_error lines (Z.to_nat (n - 1)) = Some l
                                 /\ substring (if cs then keyword else lower keyword)
                                              (if cs then l else lower l)).
  { intros cs n. rewrite matching_numbers_In. unfold line_matches.
    split; intros [Hn [l [Hl H]]]; (split; [exact Hn|]); exists l;
      (split; [exact Hl|]); apply contains_spec; exact H. }
  split; [|split; [|split; [|split]]].
  - destruct (file_matches_of_ok lower keyword false lines C)
      as [matches [E [Hn _]]].
    exists matches. split; [exact E|]. intros n. rewrite Hn. apply (Hin false).
  - destruct (file_matches_of_ok lower keyword true lines C)
      as [matches [E [Hn _]]].
    exists matches. split; [exact E|]. intros n. rewrite Hn. apply (Hin true).
  - intros n. rewrite scan_lines_numbers. apply (Hin false).
  - intros n. rewrite scan_lines_numbers. apply (Hin true).
  - destruct (file_matches_of_ok (str_lower basic_tables) (lit "beta") false
                                 (lines_of greek_bytes) C) as [m1 [E1 [H1 _]]].
    destruct (file_matches_of_ok (str_lower basic_tables) (lit "beta") true
                                 (lines_of greek_bytes) C) as [m2 [E2 [H2 _]]].
    rewrite E2. split; [exists m1; split; [exact E1 | exact H1]|]. split.
    + destruct m2; [reflexivity | discriminate H2].
    + split; [reflexivity|]. split; [reflexivity|].
      intros Hascii occurrence pre post Hk Hl Hocc. apply contains_spec.
      cbn [line_content search_keyword].
      rewrite (Hascii keyword Hk), (Hascii _ Hl).
      exists (ascii_lower pre), (ascii_lower post).
      unfold ascii_lower in *. now rewrite !map_app, Hocc.
Qed.

Lemma case_sensitivity_semantics_witness :
  (forall s, Forall (fun c => (c < 128)%N) s ->
             str_lower basic_tables s = ascii_lower s)
  /\ Forall (fun c => (c < 128)%N) (lit "beta")
  /\ Forall (fun c => (c < 128)%N) (lit "x = " ++ lit "BeTa" ++ lit ";")
  /\ ascii_lower (lit "BeTa") = ascii_lower (lit "beta")
  /\ line_matches (str_lower basic_tables) (lit "beta") false
                  (lit "x = " ++ lit "BeTa" ++ lit ";") = true
  /\ line_matches (str_lower basic_tables) (lit "beta") true
                  (lit "x = " ++ lit "BeTa" ++ lit ";") = false.
Proof.
  assert (Hk : Forall (fun c => (c < 128)%N) (lit "beta"))
    by (repeat constructor).
  assert (Hl : Forall (fun c => (c < 128)%N)
                      (lit "x = " ++ lit "BeTa" ++ lit ";"))
    by (repeat constructor).
  split; [exact str_lower_basic_ascii|]. split; [exact Hk|].
  split; [exact Hl|]. split; [reflexivity|]. split; [|reflexivity].
  apply (case_sensitivity_semantics (str_lower basic_tables) (lit "beta") [] 0).
  - exact str_lower_basic_ascii.
  - exact Hk.
  - exact Hl.
  - reflexivity.
Defined.

(** C5 as stated fails beyond ASCII: [str.lower] turns a capital sigma at the
    end of a word into the final small sigma and a capital sigma alone into
    the plain one.  So the keyword capital sigma is not found, case ignored,
    in the line of capital alpha and capital sigma, where it occurs as it
    is; with case respected it is found. *)
Lemma final_sigma_counterexample :
  str_lower basic_tables [CAPITAL_SIGMA] = [SMALL_SIGMA]
  /\ lines_of alpha_sigma_bytes = [[913%N; CAPITAL_SIGMA]]
  /\ str_lower basic_tables [913%N; CAPITAL_SIGMA] = [945%N; FINAL_SIGMA]
  /\ substring [CAPITAL_SIGMA] [913%N; CAPITAL_SIGMA]
  /\ line_matches (str_lower basic_tables) [CAPITAL_SIGMA] false
                  [913%N; CAPITAL_SIGMA] = false
  /\ search_keyword_in_file (str_lower basic_tables) [CAPITAL_SIGMA] false
                            alpha_sigma_fs (lit "g.txt") 2
     = lit "No matches found for '" ++ [CAPITAL_SIGMA] ++ lit "' in file 'g.txt'."
  /\ search_tree (str_lower basic_tables) [CAPITAL_SIGMA] false None
                 [File (lit "g.txt") (Content alpha_sigma_bytes)]
     = []
  /\ line_matches (str_lower basic_tables) [CAPITAL_SIGMA] true
                  [913%N; CAPITAL_SIGMA] = true.
Proof.
  repeat split; try reflexivity.
  exists [913%N], []. reflexivity.
Qed.

(** C6.  Without a file_pattern the directory search looks at a file exactly
    when its extension, lower-cased, is one of the twenty-five of the fixed
    list, and lists those of them that can be read and have a matching line;
    no other file is searched. *)
Theorem default_extension_filter
        (lower : str -> str) (keyword : str) (case_sensitive : bool) :
  let allowed :=
    map lit [".py"; ".txt"; ".md"; ".json"; ".xml"; ".html"; ".css"; ".js";
             ".ts"; ".java"; ".cpp"; ".c"; ".h"; ".hpp"; ".rs"; ".go"; ".rb";
             ".php"; ".sh"; ".yaml"; ".yml"; ".toml"; ".ini"; ".cfg";
             ".conf"]%string in
  (forall file,
      file_included lower None file = true <->
      In (lower (snd (splitext file))) allowed)
  /\ (forall children k,
         In k (keys (search_tree lower keyword case_sensitive None children))
         <->
         exists root files file bytes,
           In (root, files) (walk children)
           /\ In (file, Content bytes) files
           /\ In (lower (snd (splitext file))) allowed
           /\ matching_numbers lower keyword case_sensitive (lines_of bytes)
              <> []
           /\ k = rel_path root file)
  /\ file_included ascii_lower None (lit "README.MD") = true
  /\ file_included ascii_lower None (lit "Makefile") = false
  /\ file_included ascii_lower None (lit "backup.tar.gz") = false
  /\ file_included ascii_lower None (lit "snappy") = false
  /\ keys (search_tree ascii_lower (lit "beta") false None project_tree)
     = [lit "a.py"; lit "notes.txt"].
Proof.
  cbv zeta.
  assert (Hinc : forall file,
             file_included lower None file = true <->
             In (lower (snd (splitext file))) text_extensions)
    by (intros file; apply existsb_str_eqb).
  split; [exact Hinc|]. split; [|repeat split; reflexivity].
  intros children k. rewrite search_tree_keys.
  split; intros [root [files [file [bytes [Hw [Hf [Hi H]]]]]]];
    exists root, files, file, bytes; repeat (split; [assumption|]);
    (split; [apply Hinc; exact Hi | exact H]).
Qed.

(** C7.  A file of the walk that cannot be read, whatever the exception,
    leaves the result mapping as it was: the walk goes on, and the answer of
    the directory search is the one it gives on the same tree without the
    unreadable files. *)
Theorem unreadable_files_skipped
        (lower : str -> str) (keyword : str) (case_sensitive : bool)
        (file_pattern : option str) :
  (forall root matches_by_file file e,
      record_file lower keyword case_sensitive root matches_by_file file
                  (Raise e)
      = matches_by_file)
  /\ (forall root matches_by_file file e,
         visit_file lower keyword case_sensitive file_pattern root
                    matches_by_file (file, Unreadable e)
         = matches_by_file)
  /\ (forall children,
         search_tree lower keyword case_sensitive file_pattern children
         = search_tree lower keyword case_sensitive file_pattern
                       (prune readable children))
  /\ (forall fs fs' directory_path children,
         fs directory_path = Directory children ->
         fs' directory_path = Directory (prune readable children) ->
         search_keyword_in_directory lower keyword case_sensitive file_pattern
                                     fs directory_path
         = search_keyword_in_directory lower keyword case_sensitive
                                       file_pattern fs' directory_path
         /\ search_keyword_in_directory lower keyword case_sensitive
                                        file_pattern fs directory_path
            = directory_report keyword directory_path
                (search_tree lower keyword case_sensitive file_pattern
                             (prune readable children))).
Proof.
  assert (Hprune : forall children,
             search_tree lower keyword case_sensitive file_pattern children
             = search_tree lower keyword case_sensitive file_pattern
                           (prune readable children)).
  { intros children. symmetry. apply search_tree_prune.
    intros [file c] Hr. unfold readable in Hr. unfold hits. cbn [fst snd] in *.
    destruct c; [discriminate | reflexivity]. }
  split; [|split; [|split; [exact Hprune|]]].
  - intros. apply record_file_raise.
  - intros root d file e. rewrite visit_file_hits. reflexivity.
  - intros fs fs' directory_path children Hfs Hfs'.
    unfold search_keyword_in_directory, path_exists, isdir, listdir.
    rewrite Hfs, Hfs'. cbn [negb]. rewrite <- Hprune. split; reflexivity.
Qed.

Lemma unreadable_files_skipped_witness :
  project_fs (lit "proj") = Directory project_tree
  /\ one_directory (lit "proj") (prune readable project_tree) (lit "proj")
     = Directory (prune readable project_tree)
  /\ search_keyword_in_directory ascii_lower (lit "beta") false
                                 (Some (lit "py")) project_fs (lit "proj")
     = search_keyword_in_directory
         ascii_lower (lit "beta") false (Some (lit "py"))
         (one_directory (lit "proj") (prune readable project_tree))
         (lit "proj")
  /\ keys (search_tree ascii_lower (lit "beta") false (Some (lit "py"))
                       (prune readable project_tree))
     = [lit "a.py"; lit "sub/snappy"].
Proof.
  split; [reflexivity|]. split; [reflexivity|]. split; [|reflexivity].
  destruct (unreadable_files_skipped ascii_lower (lit "beta") false
                                     (Some (lit "py"))) as [_ [_ [_ H]]].
  exact (proj1 (H project_fs
                  (one_directory (lit "proj") (prune readable project_tree))
                  (lit "proj") project_tree eq_refl eq_refl)).
Defined.

(** C8.  When nothing matches, both operations answer with their no-match
    message: the file search on a readable file none of whose lines contains
    the keyword, the directory search on a directory none of whose searched
    files has a matching line, and in particular on an empty directory. *)
Theorem no_match_message
        (lower : str -> str) (keyword : str) (case_sensitive : bool) :
  (forall fs file_path bytes C,
      fs file_path = Regular (Content bytes) ->
      Forall (fun l => ~ substring (search_keyword lower keyword case_sensitive)
                                   (line_content lower case_sensitive l))
             (lines_of bytes) ->
      search_keyword_in_file lower keyword case_sensitive fs file_path C
      = lit "No matches found for '" ++ keyword ++ lit "' in file '"
          ++ file_path ++ lit "'.")
  /\ (forall fs directory_path file_pattern children,
         fs directory_path = Directory children ->
         (forall root files file bytes,
             In (root, files) (walk children) ->
             In (file, Content bytes) files ->
             file_included lower file_pattern file = true ->
             Forall (fun l => ~ substring
                                  (search_keyword lower keyword case_sensitive)
                                  (line_content lower case_sensitive l))
                    (lines_of bytes)) ->
         search_keyword_in_directory lower keyword case_sensitive file_pattern
                                     fs directory_path
         = lit "No matches found for '" ++ keyword ++ lit "' in directory '"
             ++ directory_path ++ lit "'.")
  /\ (forall fs directory_path file_pattern,
         fs directory_path = Directory [] ->
         search_keyword_in_directory lower keyword case_sensitive file_pattern
                                     fs directory_path
         = lit "No matches found for '" ++ keyword ++ lit "' in directory '"
             ++ directory_path ++ lit "'.").
Proof.
  assert (Hdir : forall fs directory_path file_pattern children,
             fs directory_path = Directory children ->
             search_tree lower keyword case_sensitive file_pattern children = [] ->
             search_keyword_in_directory lower keyword case_sensitive
                                         file_pattern fs directory_path
             = no_match_in_directory keyword directory_path).
  { intros fs directory_path file_pattern children Hfs Ht.
    unfold search_keyword_in_directory, path_exists, isdir, listdir.
    rewrite Hfs, Ht. reflexivity. }
  split; [|split].
  - intros fs file_path bytes C Hfs Hno.
    destruct (file_matches_of_ok lower keyword case_sensitive (lines_of bytes) C)
      as [matches [E [Hn _]]].
    rewrite (search_file_readable _ _ _ _ _ _ _ _ Hfs E).
    rewrite matching_numbers_none in Hn by exact Hno.
    apply map_eq_nil_inv in Hn. subst matches. reflexivity.
  - intros fs directory_path file_pattern children Hfs Hno.
    apply Hdir with children; [exact Hfs|].
    apply search_tree_empty. intros root files [file c] Hw Hf.
    unfold hits. cbn [fst snd]. destruct c as [bytes|e]; [|reflexivity].
    destruct (file_included lower file_pattern file) eqn:Hi; [|reflexivity].
    apply (map_eq_nil_inv dir_line_number). rewrite scan_lines_numbers.
    apply matching_numbers_none. now apply (Hno root files file bytes).
  - intros fs directory_path file_pattern Hfs.
    now apply Hdir with (children := []).
Qed.

Lemma no_match_message_witness :
  (greek_fs (lit "f.txt") = Regular (Content greek_bytes)
   /\ Forall (fun l => ~ substring (search_keyword ascii_lower (lit "zeta") false)
                                   (line_content ascii_lower false l))
             (lines_of greek_bytes)
   /\ search_keyword_in_file ascii_lower (lit "zeta") false greek_fs
                             (lit "f.txt") 2
      = lit "No matches found for 'zeta' in file 'f.txt'.")
  /\ (project_fs (lit "proj") = Directory project_tree
      /\ search_keyword_in_directory ascii_lower (lit "zeta") false None
                                     project_fs (lit "proj")
         = lit "No matches found for 'zeta' in directory 'proj'.")
  /\ (one_directory (lit "empty") [] (lit "empty") = Directory []
      /\ search_keyword_in_directory ascii_lower (lit "zeta") false None
                                     (one_directory (lit "empty") [])
                                     (lit "empty")
         = lit "No matches found for 'zeta' in directory 'empty'.").
Proof.
  assert (Hno : forall bytes,
             forallb (fun l => negb (line_matches ascii_lower (lit "zeta") false l))
                     (lines_of bytes) = true ->
             Forall (fun l => ~ substring (search_keyword ascii_lower (lit "zeta") false)
                                          (line_content ascii_lower false l))
                    (lines_of bytes)).
  { intros bytes H. apply Forall_forall. intros l Hl.
    apply not_substring_contains.
    rewrite forallb_forall in H. apply negb_true_iff. exact (H l Hl). }
  destruct (no_match_message ascii_lower (lit "zeta") false) as [Hf [Hd He]].
  split; [|split].
  - split; [reflexivity|]. split; [now apply Hno|].
    apply (Hf greek_fs (lit "f.txt") greek_bytes 2); [reflexivity | now apply Hno].
  - split; [reflexivity|].
    apply (Hd project_fs (lit "proj") None project_tree); [reflexivity|].
    intros root files file bytes Hw Hfile _. apply Hno.
    cbn in Hw. destruct Hw as [Hw | [Hw | []]]; injection Hw as <- <-;
      cbn in Hfile.
    + destruct Hfile as [H | [H | []]]; injection H as <- <-; reflexivity.
    + destruct Hfile as [H | [H | []]]; [injection H as <- <-; reflexivity|].
      discriminate H.
  - split; [reflexivity|].
    apply (He (one_directory (lit "empty") []) (lit "empty") None). reflexivity.
Defined.

(** C9 (amended).  The empty keyword occurs in every line.  So the file
    search on a readable file whose text has at least one line reports
    exactly the lines 1, 2, ..., total, one match each, and the directory
    search lists every searched readable file whose text has at least one
    line. *)
Theorem empty_keyword_matches_every_line
        (lower : str -> str) (case_sensitive : bool) :
  lower [] = [] ->
  (forall line, line_matches lower [] case_sensitive line = true)
  /\ (forall fs file_path bytes C,
         fs file_path = Regular (Content bytes) ->
         lines_of bytes <> [] ->
         exists matches,
           file_matches_of lower [] case_sensitive (lines_of bytes) C
           = Ok matches
           /\ map line_number matches
              = range 1 (Z.of_nat (List.length (lines_of bytes)) + 1)
           /\ List.length matches = List.length (lines_of bytes)
           /\ search_keyword_in_file lower [] case_sensitive fs file_path C
              = lit "Found " ++ str_of_int (Z.of_nat (List.length matches))
                  ++ lit " match(es) for '' in '" ++ file_path
                  ++ lit "':" ++ [NL; NL] ++ format_matches 1 matches)
  /\ (forall file_pattern children root files file bytes,
         In (root, files) (walk children) ->
         In (file, Content bytes) files ->
         file_included lower file_pattern file = true ->
         lines_of bytes <> [] ->
         In (rel_path root file)
            (keys (search_tree lower [] case_sensitive file_pattern children))).
Proof.
  intros Hlower.
  assert (Hall : forall line, line_matches lower [] case_sensitive line = true).
  { intros line. unfold line_matches, search_keyword.
    destruct case_sensitive; [|rewrite Hlower]; apply contains_empty. }
  split; [exact Hall|]. split.
  - intros fs file_path bytes C Hfs Hne.
    destruct (file_matches_of_ok lower [] case_sensitive (lines_of bytes) C)
      as [matches [E [Hn _]]].
    rewrite matching_numbers_all in Hn by exact Hall.
    exists matches. split; [exact E|]. split; [exact Hn|].
    assert (Hlen : List.length matches = List.length (lines_of bytes)).
    { rewrite <- (length_map line_number), Hn, range_length. lia. }
    split; [exact Hlen|].
    rewrite (search_file_readable _ _ _ _ _ _ _ _ Hfs E).
    destruct matches as [|m ms]; [|reflexivity].
    destruct (lines_of bytes); [congruence | discriminate Hlen].
  - intros file_pattern children root files file bytes Hw Hf Hi Hne.
    apply search_tree_keys. exists root, files, file, bytes.
    repeat (split; [assumption|]). split; [|reflexivity].
    rewrite matching_numbers_all by exact Hall.
    destruct (lines_of bytes); [congruence|].
    rewrite range_cons by (cbn [List.length]; lia). discriminate.
Qed.

Lemma empty_keyword_matches_every_line_witness :
  ascii_lower [] = []
  /\ (greek_fs (lit "f.txt") = Regular (Content greek_bytes)
      /\ lines_of greek_bytes <> []
      /\ exists matches,
          file_matches_of ascii_lower [] false (lines_of greek_bytes) 0
          = Ok matches
          /\ map line_number matches = [1; 2; 3])
  /\ In (lit "sub/snappy")
        (keys (search_tree ascii_lower [] false (Some (lit "py")) project_tree)).
Proof.
  destruct (empty_keyword_matches_every_line ascii_lower false eq_refl)
    as [_ [Hf Hd]].
  split; [reflexivity|]. split.
  - split; [reflexivity|]. split; [discriminate|].
    destruct (Hf greek_fs (lit "f.txt") greek_bytes 0 eq_refl)
      as [matches [E [Hn _]]]; [discriminate|].
    exists matches. split; [exact E | exact Hn].
  - apply (Hd (Some (lit "py")) project_tree [lit "sub"]
              [(lit "snappy", Content (bytes_of "beta"));
               (lit "locked.py", Unreadable EACCES)]
              (lit "snappy") (bytes_of "beta")).
    + cbn. right. left. reflexivity.
    + left. reflexivity.
    + reflexivity.
    + discriminate.
Defined.

(** C9 as stated fails on a file that is not empty but holds no text: the
    single byte [FF] decodes to nothing, the file has no line, the file
    search answers with the no-match message and the directory search, which
    does look at the file, does not list it. *)
Lemma empty_keyword_counterexample :
  lines_of [xff] = []
  /\ search_keyword_in_file (str_lower basic_tables) [] false
                            (one_file (lit "blob.txt") (Content [xff]))
                            (lit "blob.txt") 2
     = lit "No matches found for '' in file 'blob.txt'."
  /\ file_included (str_lower basic_tables) None (lit "blob.txt") = true
  /\ search_tree (str_lower basic_tables) [] false None stray_tree = []
  /\ search_keyword_in_directory (str_lower basic_tables) [] false None
                                 (one_directory (lit "d") stray_tree) (lit "d")
     = lit "No matches found for '' in directory 'd'.".
Proof. repeat split; reflexivity. Qed.

(** C10.  With a negative context_lines the file search does not fail: the
    window [max(1, n - C) .. min(total, n + C)] of every match is empty, so
    every matching line is still reported, with a context block of no line
    at all. *)
Theorem negative_context_lines_empty_window
        (lower : str -> str) (keyword : str) (case_sensitive : bool)
        (fs : filesystem) (file_path : str) (bytes : list byte) (C : Z) :
  fs file_path = Regular (Content bytes) ->
  C <= -1 ->
  exists matches,
    file_matches_of lower keyword case_sensitive (lines_of bytes) C = Ok matches
    /\ search_keyword_in_file lower keyword case_sensitive fs file_path C
       = file_report keyword file_path matches
    /\ map line_number matches
       = matching_numbers lower keyword case_sensitive (lines_of bytes)
    /\ Forall
         (fun m =>
            let n := line_number m in
            let total := Z.of_nat (List.length (lines_of bytes)) in
            range (Z.max 1 (n - C)) (Z.min total (n + C) + 1) = []
            /\ context m = [])
         matches.
Proof.
  intros Hfs HC.
  destruct (file_matches_of_ok lower keyword case_sensitive (lines_of bytes) C)
    as [matches [E [Hn Hc]]].
  exists matches. split; [exact E|]. split.
  { now apply search_file_readable with (bytes := bytes). }
  split; [exact Hn|].
  rewrite Forall_forall in *. intros m Hm. cbv zeta.
  assert (Hr : window (lines_of bytes) C (line_number m) = [])
    by (apply range_nil; lia).
  split; [exact Hr|]. now rewrite (Hc m Hm), Hr.
Qed.

Lemma negative_context_lines_empty_window_witness :
  greek_fs (lit "f.txt") = Regular (Content greek_bytes)
  /\ -1 <= -1
  /\ exists matches,
      file_matches_of ascii_lower (lit "a") false (lines_of greek_bytes) (-1)
      = Ok matches
      /\ search_keyword_in_file ascii_lower (lit "a") false greek_fs
                                (lit "f.txt") (-1)
         = file_report (lit "a") (lit "f.txt") matches
      /\ map line_number matches
         = matching_numbers ascii_lower (lit "a") false (lines_of greek_bytes)
      /\ Forall
           (fun m =>
              let n := line_number m in
              let total := Z.of_nat (List.length (lines_of greek_bytes)) in
              range (Z.max 1 (n - -1)) (Z.min total (n + -1) + 1) = []
              /\ context m = [])
           matches.
Proof.
  split; [reflexivity|]. split; [lia|].
  apply (negative_context_lines_empty_window
           ascii_lower (lit "a") false greek_fs (lit "f.txt") greek_bytes (-1)).
  - reflexivity.
  - lia.
Defined.

(** * Further properties of the two tools *)

(** ** Which answers are errors *)

(** X1.  The file search answers with an error message exactly when the path
    is not a regular file that can be read; a readable file always gets a
    report, with matches or without. *)
Theorem file_search_error_iff
        (lower : str -> str) (keyword : str) (case_sensitive : bool)
        (fs : filesystem) (file_path : str) (C : Z) :
  is_error (search_keyword_in_file lower keyword case_sensitive fs file_path C)
  = true
  <-> forall bytes, fs file_path <> Regular (Content bytes).
Proof.
  unfold is_error.
  destruct (fs file_path) as [|[bytes|[|msg]]|children|] eqn:Hfs.
  - unfold search_keyword_in_file, path_exists. rewrite Hfs.
    split; [intros _ bytes; discriminate | reflexivity].
  - destruct (file_matches_of_ok lower keyword case_sensitive (lines_of bytes) C)
      as [matches [E _]].
    rewrite (search_file_readable _ _ _ _ _ _ _ _ Hfs E). split.
    + destruct matches; discriminate.
    + intros H. now destruct (H bytes).
  - unfold search_keyword_in_file, path_exists, isfile, read_path. rewrite Hfs.
    split; [intros _ bytes; discriminate | reflexivity].
  - unfold search_keyword_in_file, path_exists, isfile, read_path. rewrite Hfs.
    split; [intros _ bytes; discriminate | reflexivity].
  - unfold search_keyword_in_file, path_exists, isfile. rewrite Hfs.
    split; [intros _ bytes; discriminate | reflexivity].
  - unfold search_keyword_in_file, path_exists, isfile. rewrite Hfs.
    split; [intros _ bytes; discriminate | reflexivity].
Qed.


(** ** What a match carries *)

Section Pairs.
Variable lower : str -> str.
Variable keyword : str.
Variable case_sensitive : bool.

Lemma scan_file_pairs (lines : list str) (C : Z) (numbered : list (Z * str)) :
  exists matches,
    scan_file lower keyword case_sensitive lines C numbered = Ok matches
    /\ map (fun m => (line_number m, line m)) matches
       = map (fun p => (fst p, rstrip_nl (snd p)))
             (filter (fun p => line_matches lower keyword case_sensitive (snd p))
                     numbered).
Proof.
  induction numbered as [|[n l] numbered [ms [E Hp]]].
  - exists []. split; reflexivity.
  - cbn [scan_file filter snd].
    destruct (line_matches lower keyword case_sensitive l).
    + fold (window lines C n).
      rewrite (collect_context_ok lines n) by apply window_bounds.
      rewrite E. cbn [bind]. eexists. split; [reflexivity|].
      cbn [map line_number line fst snd]. now rewrite Hp.
    + exists ms. auto.
Qed.

Lemma scan_lines_pairs (numbered : list (Z * str)) :
  map (fun m => (dir_line_number m, dir_line m))
      (scan_lines lower keyword case_sensitive numbered)
  = map (fun p => (fst p, rstrip_nl (snd p)))
        (filter (fun p => line_matches lower keyword case_sensitive (snd p))
                numbered).
Proof.
  induction numbered as [|[n l] numbered IH]; [reflexivity|].
  cbn [scan_lines filter snd].
  destruct (line_matches lower keyword case_sensitive l);
    cbn [map dir_line_number dir_line fst snd]; now rewrite IH.
Qed.

Lemma matching_pairs_In (lines : list str) (n : Z) (text : str) :
  In (n, text)
     (map (fun p => (fst p, rstrip_nl (snd p)))
          (filter (fun p => line_matches lower keyword case_sensitive (snd p))
                  (enumerate1 lines)))
  <-> 1 <= n
      /\ exists l, nth_error lines (Z.to_nat (n - 1)) = Some l
                   /\ line_matches lower keyword case_sensitive l = true
                   /\ text = rstrip_nl l.
Proof.
  rewrite enumerate1_numbered, in_map_iff. split.
  - intros [[n' l] [H Hin]]. injection H as <- <-.
    apply filter_In in Hin. destruct Hin as [Hin Hm].
    apply numbered_from_In in Hin. cbn [fst snd] in *.
    split; [lia|]. exists l. tauto.
  - intros [Hn [l [Hl [Hm ->]]]]. exists (n, l). split; [reflexivity|].
    apply filter_In. split; [|exact Hm]. apply numbered_from_In. tauto.
Qed.

End Pairs.

(** X3.  The file search and the per-file scan of the directory search agree:
    for the same lines, keyword and case flag they report the same line
    numbers with the same line texts, in the same order, whatever the
    context_lines of the file search. *)
Theorem both_tools_report_the_same_lines
        (lower : str -> str) (keyword : str) (case_sensitive : bool)
        (lines : list str) (C : Z) :
  exists matches,
    file_matches_of lower keyword case_sensitive lines C = Ok matches
    /\ map (fun m => (line_number m, line m)) matches
       = map (fun m => (dir_line_number m, dir_line m))
             (scan_lines lower keyword case_sensitive (enumerate1 lines)).
Proof.
  destruct (scan_file_pairs lower keyword case_sensitive lines C
                            (enumerate1 lines)) as [matches [E Hp]].
  exists matches. split; [exact E|]. now rewrite Hp, scan_lines_pairs.
Qed.

(** X4.  A pair of a line number and a text is reported by the file search
    exactly when the line of that number passes the keyword test and the text
    is that line without its trailing newline. *)
Theorem file_match_is_stripped_source_line
        (lower : str -> str) (keyword : str) (case_sensitive : bool)
        (lines : list str) (C : Z) :
  exists matches,
    file_matches_of lower keyword case_sensitive lines C = Ok matches
    /\ forall n text,
        In (n, text) (map (fun m => (line_number m, line m)) matches)
        <-> 1 <= n
            /\ exists l, nth_error lines (Z.to_nat (n - 1)) = Some l
                         /\ line_matches lower keyword case_sensitive l = true
                         /\ text = rstrip_nl l.
Proof.
  destruct (scan_file_pairs lower keyword case_sensitive lines C
                            (enumerate1 lines)) as [matches [E Hp]].
  exists matches. split; [exact E|]. intros n text.
  rewrite Hp. apply matching_pairs_In.
Qed.

(** ** The lines of a file *)

Lemma split_lines_concat (s : str) : List.concat (split_lines s) = s.
Proof.
  induction s as [|c t IH]; [reflexivity|]. cbn [split_lines].
  destruct (N.eqb c NL).
  - cbn [List.concat app]. now rewrite IH.
  - destruct (split_lines t) as [|l ls].
    + cbn in IH. subst t. reflexivity.
    + cbn [List.concat] in *. now rewrite <- IH.
Qed.

Lemma split_lines_shape (s : str) :
  Forall (fun l => l <> [] /\ ~ In NL (removelast l)) (split_lines s).
Proof.
  induction s as [|c t IH]; [constructor|]. cbn [split_lines].
  destruct (N.eqb c NL) eqn:E.
  - constructor; [|exact IH]. split; [discriminate | intros []].
  - apply N.eqb_neq in E. destruct (split_lines t) as [|l ls].
    + constructor; [|constructor]. split; [discriminate | intros []].
    + inversion IH as [|? ? [Hne Hl] Hls]; subst.
      constructor; [|exact Hls]. split; [discriminate|].
      destruct l as [|c' l']; [congruence|].
      cbn [removelast] in *. intros [H | H]; [congruence | exact (Hl H)].
Qed.

Lemma split_lines_ends (s : str) :
  Forall (fun l => exists body, l = body ++ [NL]) (removelast (split_lines s)).
Proof.
  induction s as [|c t IH]; [constructor|]. cbn [split_lines].
  destruct (N.eqb c NL) eqn:E.
  - apply N.eqb_eq in E. subst c.
    destruct (split_lines t) as [|l ls]; [constructor|].
    cbn [removelast] in *. constructor; [now exists [] | exact IH].
  - destruct (split_lines t) as [|l ls]; [constructor|].
    destruct ls as [|l' ls']; [constructor|].
    cbn [removelast] in *. inversion IH as [|? ? [body Hb] Hls]; subst.
    constructor; [now exists (c :: body) | exact Hls].
Qed.

Lemma translate_newlines_no_cr (s : str) : ~ In CR (translate_newlines s).
Proof.
  remember (List.length s) as n eqn:Hn.
  revert s Hn. induction n as [n IH] using (well_founded_induction lt_wf).
  intros [|c t] Hn; [intros []|]. cbn [translate_newlines List.length] in *.
  destruct (N.eqb c CR) eqn:E.
  - intros [H | H]; [discriminate H|].
    destruct t as [|c' t']; [exact H|]. cbn [List.length] in Hn.
    destruct (N.eqb c' NL).
    + apply (IH (List.length t')) in H; [exact H | lia | reflexivity].
    + apply (IH (List.length (c' :: t'))) in H;
        [exact H | cbn [List.length]; lia | reflexivity].
  - apply N.eqb_neq in E. intros [H | H]; [congruence|].
    apply (IH (List.length t)) in H; [exact H | lia | reflexivity].
Qed.

Lemma translate_newlines_id (s : str) :
  ~ In CR s -> translate_newlines s = s.
Proof.
  induction s as [|c t IH]; [reflexivity|]. intros H.
  cbn [translate_newlines]. destruct (N.eqb c CR) eqn:E.
  - apply N.eqb_eq in E. exfalso. apply H. now left.
  - f_equal. apply IH. intros Hin. apply H. now right.
Qed.

Lemma rstrip_nl_snoc (s : str) : rstrip_nl (s ++ [NL]) = rstrip_nl s.
Proof.
  induction s as [|c t IH]; [reflexivity|].
  cbn [app rstrip_nl]. now rewrite IH.
Qed.

Lemma rstrip_nl_id (s : str) : ~ In NL s -> rstrip_nl s = s.
Proof.
  induction s as [|c t IH]; [reflexivity|]. intros H.
  cbn [rstrip_nl]. rewrite IH by (intros Hin; apply H; now right).
  destruct t; [|reflexivity].
  destruct (N.eqb c NL) eqn:E; [|reflexivity].
  apply N.eqb_eq in E. exfalso. apply H. now left.
Qed.

Lemma rstrip_nl_incl (s : str) (c : N) : In c (rstrip_nl s) -> In c s.
Proof.
  induction s as [|a t IH]; [intros []|]. cbn [rstrip_nl].
  destruct (rstrip_nl t) as [|b t'].
  - destruct (N.eqb a NL); [intros [] | intros [H | []]; now left].
  - intros [H | H]; [now left | right; now apply IH].
Qed.

Lemma rstrip_nl_of_line (l : str) :
  ~ In NL (removelast l) -> ~ In NL (rstrip_nl l).
Proof.
  intros H. destruct l as [|c t]; [intros []|].
  rewrite (app_removelast_last NL (l := c :: t)) by discriminate.
  destruct (N.eq_dec (last (c :: t) NL) NL) as [E | E].
  - rewrite E, rstrip_nl_snoc, rstrip_nl_id; exact H.
  - rewrite rstrip_nl_id; [|]; intros Hin; apply in_app_or in Hin;
      destruct Hin as [Hin | [Hin | []]]; auto.
Qed.

Lemma lines_of_no_cr (bytes : list byte) (l : str) :
  In l (lines_of bytes) -> ~ In CR l.
Proof.
  intros Hl Hc.
  apply (translate_newlines_no_cr (utf8_decode_ignore bytes)).
  rewrite <- (split_lines_concat (translate_newlines _)).
  apply in_concat. now exists l.
Qed.

(** X5.  The lines read from a text are a partition of it: put end to end
    they give the text back, none is empty, a newline occurs in a line only
    as its last character, and every line but the last ends with one. *)
Theorem readlines_partition (text : str) :
  List.concat (split_lines text) = text
  /\ Forall (fun l => l <> [] /\ ~ In NL (removelast l)) (split_lines text)
  /\ Forall (fun l => exists body, l = body ++ [NL])
            (removelast (split_lines text)).
Proof.
  split; [apply split_lines_concat|].
  split; [apply split_lines_shape | apply split_lines_ends].
Qed.

(** X6.  The text shown for a match never contains a line break: whatever
    the bytes of the file, the line of a match of the file search and of the
    directory scan holds neither a newline nor a carriage return. *)
Theorem reported_line_has_no_line_break
        (lower : str -> str) (keyword : str) (case_sensitive : bool)
        (bytes : list byte) (C : Z) :
  (exists matches,
      file_matches_of lower keyword case_sensitive (lines_of bytes) C
      = Ok matches
      /\ Forall (fun m => ~ In NL (line m) /\ ~ In CR (line m)) matches)
  /\ Forall (fun m => ~ In NL (dir_line m) /\ ~ In CR (dir_line m))
            (scan_lines lower keyword case_sensitive
                        (enumerate1 (lines_of bytes))).
Proof.
  assert (Hpair : forall n text,
             In (n, text)
                (map (fun p => (fst p, rstrip_nl (snd p)))
                     (filter (fun p => line_matches lower keyword
                                                    case_sensitive (snd p))
                             (enumerate1 (lines_of bytes)))) ->
             ~ In NL text /\ ~ In CR text).
  { intros n text H. apply matching_pairs_In in H.
    destruct H as [_ [l [Hl [_ ->]]]]. apply nth_error_In in Hl. split.
    - apply rstrip_nl_of_line.
      pose proof (split_lines_shape
                    (translate_newlines (utf8_decode_ignore bytes))) as Hs.
      rewrite Forall_forall in Hs. exact (proj2 (Hs l Hl)).
    - intros Hc. apply rstrip_nl_incl in Hc.
      exact (lines_of_no_cr bytes l Hl Hc). }
  split.
  - destruct (scan_file_pairs lower keyword case_sensitive (lines_of bytes) C
                              (enumerate1 (lines_of bytes))) as [matches [E Hp]].
    exists matches. split; [exact E|]. apply Forall_forall. intros m Hm.
    apply (Hpair (line_number m)). rewrite <- Hp.
    apply (in_map (fun m => (line_number m, line m))). exact Hm.
  - apply Forall_forall. intros m Hm.
    apply (Hpair (dir_line_number m)). rewrite <- scan_lines_pairs.
    apply (in_map (fun m => (dir_line_number m, dir_line m))). exact Hm.
Qed.

Lemma no_inner_newline_no_occurrence (k1 : str) (c : N) (k2 l : str) :
  ~ In NL (removelast l) -> ~ substring (k1 ++ NL :: c :: k2) l.
Proof.
  intros H [pre [post E]]. apply H. subst l.
  replace (pre ++ (k1 ++ NL :: c :: k2) ++ post)
    with ((pre ++ k1 ++ [NL]) ++ (c :: k2 ++ post))
    by (repeat rewrite <- app_assoc; reflexivity).
  rewrite removelast_app by discriminate.
  apply in_or_app. left. apply in_or_app. right. apply in_or_app. right.
  now left.
Qed.

Lemma removelast_In {A} (a : A) (l : list A) :
  In a (removelast l) -> In a l.
Proof.
  induction l as [|b l IH]; [intros []|].
  destruct l as [|b' l']; [intros []|].
  cbn [removelast]. intros [H | H]; [now left | right; now apply IH].
Qed.

Section LowerNewline.
Variable T : case_tables.
Hypothesis lower_newline : to_lower_full T NL = [NL].
Hypothesis lower_no_newline :
  forall x, x <> NL -> ~ In NL (to_lower_full T x).
Hypothesis lower_not_empty : forall x, to_lower_full T x <> [].

(** The image of one character in its context. *)
Let image (before : str) (x : N) (after : str) : str :=
  if N.eqb x CAPITAL_SIGMA
  then [handle_capital_sigma T before after]
  else to_lower_full T x.

Lemma image_newline (before after : str) : image before NL after = [NL].
Proof. unfold image. cbn. exact lower_newline. Qed.

Lemma image_no_newline (before : str) (x : N) (after : str) :
  x <> NL -> ~ In NL (image before x after).
Proof.
  intros Hx. unfold image. destruct (N.eqb x CAPITAL_SIGMA).
  - unfold handle_capital_sigma.
    destruct (match skip_ignorable T before with
              | Some c =>
                  is_cased T c
                  && match skip_ignorable T after with
                     | Some c' => negb (is_cased T c')
                     | None => true
                     end
              | None => false
              end); intros [H | []]; discriminate H.
  - now apply lower_no_newline.
Qed.

Lemma image_not_empty (before : str) (x : N) (after : str) :
  image before x after <> [].
Proof.
  unfold image. destruct (N.eqb x CAPITAL_SIGMA);
    [discriminate | apply lower_not_empty].
Qed.

Lemma lower_from_cons (before : str) (x : N) (after : str) :
  lower_from T before (x :: after)
  = image before x after ++ lower_from T (x :: before) after.
Proof. reflexivity. Qed.

Lemma lower_from_keeps_inner_newline (k1 : str) (c : N) (k2 : str) :
  forall before,
  exists A c' B,
    lower_from T before (k1 ++ NL :: c :: k2) = A ++ NL :: c' :: B.
Proof.
  induction k1 as [|x k1 IH]; intros before.
  - cbn [app]. rewrite !lower_from_cons, image_newline.
    destruct (image (NL :: before) c k2) as [|c' rest] eqn:E.
    + now apply image_not_empty in E.
    + exists [], c', (rest ++ lower_from T (c :: NL :: before) k2).
      reflexivity.
  - cbn [app]. rewrite lower_from_cons.
    destruct (IH (x :: before)) as [A [c' [B ->]]].
    exists (image before x (k1 ++ NL :: c :: k2) ++ A), c', B.
    now rewrite <- app_assoc.
Qed.

Lemma lower_from_keeps_line (s : str) :
  forall before,
    ~ In NL (removelast s) -> ~ In NL (removelast (lower_from T before s)).
Proof.
  induction s as [|x s IH]; intros before H; [intros []|].
  rewrite lower_from_cons. destruct s as [|y t].
  - cbn [lower_from]. rewrite app_nil_r.
    destruct (N.eq_dec x NL) as [-> | Hx].
    + rewrite image_newline. intros [].
    + intros Hin. apply (image_no_newline before x [] Hx).
      exact (removelast_In _ _ Hin).
  - cbn [removelast] in H.
    assert (Hx : x <> NL) by (intros ->; apply H; now left).
    assert (Hrest : ~ In NL (removelast (y :: t)))
      by (intros Hin; apply H; now right).
    rewrite removelast_app.
    + intros Hin. apply in_app_or in Hin. destruct Hin as [Hin | Hin].
      * exact (image_no_newline before x (y :: t) Hx Hin).
      * exact (IH (x :: before) Hrest Hin).
    + rewrite lower_from_cons. intros E. apply app_eq_nil in E.
      exact (image_not_empty _ _ _ (proj1 E)).
Qed.

End LowerNewline.

(** X7.  A keyword that runs across a line break, a newline followed by at
    least one more character, is never found in a readable file: not with
    case respected, and not with case ignored under [str.lower], whose tables
    map the newline to itself, nothing else to a newline, and no character to
    nothing.  The file search answers with the no-match message and the
    directory scan finds nothing. *)
Theorem keyword_across_lines_never_found
        (lower : str -> str) (T : case_tables) (k1 : str) (c : N) (k2 : str)
        (fs : filesystem) (file_path : str) (bytes : list byte) (C : Z) :
  fs file_path = Regular (Content bytes) ->
  to_lower_full T NL = [NL] ->
  (forall x, x <> NL -> ~ In NL (to_lower_full T x)) ->
  (forall x, to_lower_full T x <> []) ->
  let keyword := k1 ++ NL :: c :: k2 in
  search_keyword_in_file lower keyword true fs file_path C
  = lit "No matches found for '" ++ keyword ++ lit "' in file '"
      ++ file_path ++ lit "'."
  /\ scan_lines lower keyword true (enumerate1 (lines_of bytes)) = []
  /\ search_keyword_in_file (str_lower T) keyword false fs file_path C
     = lit "No matches found for '" ++ keyword ++ lit "' in file '"
         ++ file_path ++ lit "'."
  /\ scan_lines (str_lower T) keyword false (enumerate1 (lines_of bytes)) = [].
Proof.
  intros Hfs HT1 HT2 HT3 keyword.
  assert (Hshape : forall l, In l (lines_of bytes) -> ~ In NL (removelast l)).
  { intros l Hl.
    pose proof (split_lines_shape
                  (translate_newlines (utf8_decode_ignore bytes))) as Hs.
    rewrite Forall_forall in Hs. exact (proj2 (Hs l Hl)). }
  assert (Hnone : forall lw cs,
             (forall l, In l (lines_of bytes) ->
                        ~ substring (search_keyword lw keyword cs)
                                    (line_content lw cs l)) ->
             search_keyword_in_file lw keyword cs fs file_path C
             = no_match_in_file keyword file_path
             /\ scan_lines lw keyword cs (enumerate1 (lines_of bytes)) = []).
  { intros lw cs H.
    assert (Hm : matching_numbers lw keyword cs (lines_of bytes) = [])
      by (apply matching_numbers_none, Forall_forall; exact H).
    split.
    - destruct (file_matches_of_ok lw keyword cs (lines_of bytes) C)
        as [matches [E [Hn _]]].
      rewrite (search_file_readable _ _ _ _ _ _ _ _ Hfs E).
      rewrite Hm in Hn. apply map_eq_nil_inv in Hn. now subst matches.
    - apply (map_eq_nil_inv dir_line_number). now rewrite scan_lines_numbers. }
  destruct (Hnone lower true) as [H1 H2].
  { intros l Hl. apply no_inner_newline_no_occurrence, Hshape, Hl. }
  destruct (Hnone (str_lower T) false) as [H3 H4].
  { intros l Hl. cbn [search_keyword line_content]. unfold str_lower.
    destruct (lower_from_keeps_inner_newline T HT1 HT3 k1 c k2 [])
      as [A [c' [B E]]].
    fold keyword in E. rewrite E.
    apply no_inner_newline_no_occurrence.
    apply (lower_from_keeps_line T HT1 HT2 HT3). apply Hshape, Hl. }
  repeat split; assumption.
Qed.

Lemma keyword_across_lines_never_found_witness :
  greek_fs (lit "f.txt") = Regular (Content greek_bytes)
  /\ to_lower_full basic_tables NL = [NL]
  /\ (forall x, x <> NL -> ~ In NL (to_lower_full basic_tables x))
  /\ (forall x, to_lower_full basic_tables x <> [])
  /\ search_keyword_in_file (str_lower basic_tables)
                            (lit "ALPHA" ++ NL :: 66%N :: lit "ETA")
                            false greek_fs (lit "f.txt") 2
     = lit "No matches found for '" ++ (lit "ALPHA" ++ NL :: 66%N :: lit "ETA")
         ++ lit "' in file '" ++ lit "f.txt" ++ lit "'.".
Proof.
  assert (H2 : forall x, x <> NL -> ~ In NL (to_lower_full basic_tables x)).
  { intros x Hx. cbn [to_lower_full basic_tables]. unfold NL in *.
    destruct (N.leb 65 x && N.leb x 90)%bool eqn:E1.
    - apply andb_true_iff in E1. destruct E1 as [E1 _]. apply N.leb_le in E1.
      intros [H | []]. lia.
    - destruct (N.leb 913 x && N.leb x 937 && negb (N.eqb x 930))%bool eqn:E2.
      + apply andb_true_iff in E2. destruct E2 as [E2 _].
        apply andb_true_iff in E2. destruct E2 as [E2 _].
        apply N.leb_le in E2. intros [H | []]. lia.
      + intros [H | []]. congruence. }
  assert (H3 : forall x, to_lower_full basic_tables x <> []).
  { intros x. cbn [to_lower_full basic_tables].
    destruct (N.leb 65 x && N.leb x 90)%bool; [discriminate|].
    destruct (N.leb 913 x && N.leb x 937 && negb (N.eqb x 930))%bool;
      discriminate. }
  split; [reflexivity|]. split; [reflexivity|]. split; [exact H2|].
  split; [exact H3|].
  exact (proj1 (proj2 (proj2 (keyword_across_lines_never_found
                  (str_lower basic_tables) basic_tables (lit "ALPHA") 66%N
                  (lit "ETA")
                  greek_fs (lit "f.txt") greek_bytes 2 eq_refl eq_refl
                  H2 H3)))).
Defined.

(** ** The result mapping of the directory search *)

Lemma dict_set_fresh {V} (d : dict V) (k : str) (v : V) :
  ~ In k (keys d) -> dict_set d k v = d ++ [(k, v)].
Proof.
  induction d as [|[k0 v0] d IH]; [reflexivity|]. cbn. intros H.
  destruct (str_eqb k k0) eqn:E.
  - apply str_eqb_eq in E. exfalso. apply H. now left.
  - rewrite IH; [reflexivity|]. intros Hin. apply H. now right.
Qed.

Lemma dict_set_keys_NoDup {V} (d : dict V) (k : str) (v : V) :
  NoDup (keys d) -> NoDup (keys (dict_set d k v)).
Proof.
  induction d as [|[k0 v0] d IH]; cbn; intros H.
  - constructor; [intros [] | constructor].
  - inversion H as [|? ? Hk Hd]; subst. destruct (str_eqb k k0) eqn:E; cbn.
    + constructor; assumption.
    + constructor; [|now apply IH].
      intros Hin. apply (dict_set_keys d k v k0) in Hin.
      destruct Hin as [Heq | Hin]; [|exact (Hk Hin)].
      assert (str_eqb k k0 = true) by (apply str_eqb_eq; congruence).
      congruence.
Qed.

Lemma dict_set_map_keys {V} (g : str -> str) (d : dict V) (k : str) (v : V) :
  (forall a b, g a = g b -> a = b) ->
  dict_set (map (fun kv => (g (fst kv), snd kv)) d) (g k) v
  = map (fun kv => (g (fst kv), snd kv)) (dict_set d k v).
Proof.
  intros Hg. induction d as [|[k0 v0] d IH]; [reflexivity|].
  cbn [map dict_set fst snd].
  replace (str_eqb (g k) (g k0)) with (str_eqb k k0).
  - destruct (str_eqb k k0); cbn [map fst snd]; [reflexivity | now rewrite IH].
  - destruct (str_eqb k k0) eqn:E.
    + apply str_eqb_eq in E. subst. symmetry. now apply str_eqb_eq.
    + destruct (str_eqb (g k) (g k0)) eqn:E'; [|reflexivity].
      apply str_eqb_eq, Hg, str_eqb_eq in E'. congruence.
Qed.

Section Mapping.
Variable lower : str -> str.
Variable keyword : str.
Variable case_sensitive : bool.
Variable file_pattern : option str.

Local Abbreviation visit_file' :=
  (visit_file lower keyword case_sensitive file_pattern).
Local Abbreviation hits' := (hits lower keyword case_sensitive file_pattern).
Local Abbreviation visit_walk' :=
  (visit_walk lower keyword case_sensitive file_pattern).

Lemma visit_walk_invariant (Q : dict (list dir_match) -> Prop) :
  (forall d k v, Q d -> v <> [] -> Q (dict_set d k v)) ->
  forall w d, Q d -> Q (visit_walk' d w).
Proof.
  intros HQ. induction w as [|[root files] w IH]; intros d Hd; [exact Hd|].
  rewrite visit_walk_cons. apply IH. clear IH. revert d Hd.
  induction files as [|f files IHf]; intros d Hd; [exact Hd|].
  cbn [fold_left]. apply IHf. rewrite visit_file_hits.
  destruct (hits' f) eqn:E; [exact Hd|]. apply HQ; [exact Hd | discriminate].
Qed.

(** The two nested loops as one loop over the files of the walk. *)
Lemma visit_walk_flat w :
  forall d,
    visit_walk' d w
    = fold_left (fun d rf => visit_file' (fst rf) d (snd rf))
                (flat_map (fun rf => map (pair (fst rf)) (snd rf)) w) d.
Proof.
  induction w as [|[root files] w IH]; intros d; [reflexivity|].
  rewrite visit_walk_cons, IH. cbn [flat_map fst snd].
  rewrite fold_left_app. f_equal. clear IH. revert d.
  induction files as [|f files IHf]; intros d; [reflexivity|].
  cbn [map fold_left fst snd]. apply IHf.
Qed.

Lemma visit_fresh_files (L : list (list str * (str * file_content))) :
  forall d,
    NoDup (map file_key L) ->
    (forall rf, In rf L -> ~ In (file_key rf) (keys d)) ->
    fold_left (fun d rf => visit_file' (fst rf) d (snd rf)) L d
    = d ++ map (fun rf => (file_key rf, hits' (snd rf)))
               (filter (fun rf => match hits' (snd rf) with
                                  | [] => false
                                  | _ => true
                                  end) L).
Proof.
  induction L as [|rf L IH]; intros d Hnd Hfresh.
  - cbn. now rewrite app_nil_r.
  - cbn [fold_left filter map] in *. inversion Hnd as [|? ? Hk HL]; subst.
    rewrite visit_file_hits. fold (file_key rf).
    destruct (hits' (snd rf)) as [|m ms] eqn:E.
    + apply IH; [exact HL|]. intros rf' Hin. apply Hfresh. now right.
    + rewrite dict_set_fresh by (apply Hfresh; now left).
      rewrite IH; [|exact HL|].
      * cbn [map]. rewrite E, <- app_assoc. reflexivity.
      * intros rf' Hin Hkey. unfold keys in Hkey.
        rewrite map_app in Hkey. apply in_app_or in Hkey.
        destruct Hkey as [Hkey | [Hkey | []]].
        -- apply (Hfresh rf'); [now right | exact Hkey].
        -- cbn in Hkey. apply Hk. rewrite Hkey. now apply in_map.
Qed.

End Mapping.

(** X8.  In the result mapping of a directory search no path is listed
    twice, and every listed file has at least one match. *)
Theorem result_mapping_well_formed
        (lower : str -> str) (keyword : str) (case_sensitive : bool)
        (file_pattern : option str) (children : list entry) :
  NoDup (keys (search_tree lower keyword case_sensitive file_pattern children))
  /\ Forall (fun file_matches => file_matches <> [])
            (values (search_tree lower keyword case_sensitive file_pattern
                                 children)).
Proof.
  rewrite search_tree_visit_all.
  apply (visit_walk_invariant
           lower keyword case_sensitive file_pattern
           (fun d => NoDup (keys d) /\ Forall (fun v => v <> []) (values d))).
  - intros d k v [Hk Hv] Hne. split.
    + now apply dict_set_keys_NoDup.
    + now apply dict_set_values.
  - split; constructor.
Qed.

(** X9.  When the files below the search root have pairwise different
    relative paths, the result mapping lists, in the order of the walk,
    exactly the files that pass the filter, can be read and have a match,
    each under its relative path with its matches. *)
Theorem result_mapping_in_walk_order
        (lower : str -> str) (keyword : str) (case_sensitive : bool)
        (file_pattern : option str) (children : list entry) :
  NoDup (map file_key (walk_files children)) ->
  search_tree lower keyword case_sensitive file_pattern children
  = map (fun rf => (file_key rf,
                    hits lower keyword case_sensitive file_pattern (snd rf)))
        (filter (fun rf =>
                   match hits lower keyword case_sensitive file_pattern
                              (snd rf) with
                   | [] => false
                   | _ => true
                   end)
                (walk_files children)).
Proof.
  intros Hnd. rewrite search_tree_visit_all, visit_walk_flat.
  fold (walk_files children).
  rewrite visit_fresh_files; [reflexivity | exact Hnd | intros rf _ []].
Qed.

Lemma result_mapping_in_walk_order_witness :
  NoDup (map file_key (walk_files project_tree))
  /\ search_tree ascii_lower (lit "beta") false (Some (lit "py")) project_tree
     = [ (lit "a.py", [DirMatch 1 (lit "x = beta")]);
         (lit "sub/snappy", [DirMatch 1 (lit "beta")]) ].
Proof.
  assert (Hnd : NoDup (map file_key (walk_files project_tree))).
  { repeat constructor; cbn; intuition discriminate. }
  split; [exact Hnd|].
  rewrite (result_mapping_in_walk_order
             ascii_lower (lit "beta") false (Some (lit "py")) project_tree Hnd).
  reflexivity.
Defined.

(** ** Sub-directories *)

Lemma walk_entry_under (name : str) (e : entry) :
  forall root,
    walk_entry (name :: root) e
    = map (fun rf => (name :: fst rf, snd rf)) (walk_entry root e).
Proof.
  induction e as [n c | n children IH] using entry_induction; intros root.
  - reflexivity.
  - cbn [walk_entry map fst snd app]. f_equal.
    induction IH as [|e es He _ IHes]; [reflexivity|].
    cbn [flat_map]. rewrite map_app, He, IHes. reflexivity.
Qed.

Lemma walk_single_dir (name : str) (children : list entry) :
  walk [Dir name children]
  = ([], []) :: map (fun rf => (name :: fst rf, snd rf)) (walk children).
Proof.
  unfold walk. cbn [files_of flat_map walk_entry app map fst snd].
  rewrite app_nil_r. do 2 f_equal.
  induction children as [|e es IH]; [reflexivity|].
  cbn [flat_map]. rewrite map_app, <- IH. f_equal.
  apply (walk_entry_under name e []).
Qed.

Lemma rel_path_under (name : str) (root : list str) (file : str) :
  rel_path (name :: root) file = under name (rel_path root file).
Proof.
  unfold rel_path, under. cbn [app join].
  destruct (root ++ [file]) eqn:E; [|reflexivity].
  destruct root; discriminate E.
Qed.

Lemma under_injective (name a b : str) : under name a = under name b -> a = b.
Proof.
  unfold under. intros H. apply app_inv_head in H. now apply app_inv_head in H.
Qed.

(** X10.  Searching a directory that holds a single sub-directory gives the
    result of searching that sub-directory, every path prefixed with the
    sub-directory's name and a separator: the walk descends, and the keys
    are relative to the search root. *)
Theorem search_descends_into_subdirectory
        (lower : str -> str) (keyword : str) (case_sensitive : bool)
        (file_pattern : option str) (name : str) (children : list entry) :
  search_tree lower keyword case_sensitive file_pattern [Dir name children]
  = map (fun kv => (name ++ lit "/" ++ fst kv, snd kv))
        (search_tree lower keyword case_sensitive file_pattern children).
Proof.
  rewrite !search_tree_visit_all, walk_single_dir, visit_walk_cons.
  cbn [fold_left]. fold (under name).
  change (@nil (str * list dir_match))
    with (map (fun kv : str * list dir_match => (under name (fst kv), snd kv)) [])
    at 1.
  generalize (walk children) ([] : dict (list dir_match)).
  intros w. induction w as [|[root files] w IH]; intros d; [reflexivity|].
  cbn [map fst snd]. rewrite !visit_walk_cons.
  assert (Hfiles : forall fs d,
             fold_left (visit_file lower keyword case_sensitive file_pattern
                                   (name :: root)) fs
                       (map (fun kv => (under name (fst kv), snd kv)) d)
             = map (fun kv => (under name (fst kv), snd kv))
                   (fold_left (visit_file lower keyword case_sensitive
                                          file_pattern root) fs d)).
  { clear. induction fs as [|f fs IHf]; intros d; [reflexivity|].
    cbn [fold_left]. rewrite <- IHf. f_equal.
    rewrite !visit_file_hits.
    destruct (hits lower keyword case_sensitive file_pattern f);
      [reflexivity|].
    rewrite rel_path_under.
    apply (dict_set_map_keys (under name)). apply under_injective. }
  rewrite Hfiles. apply IH.
Qed.

(** ** Plain text files *)

Lemma utf8_decode_ascii_all (bytes : list byte) :
  Forall (fun b => (Byte.to_N b < 128)%N) bytes ->
  utf8_decode_ignore bytes = map Byte.to_N bytes.
Proof.
  induction 1 as [|b bytes Hb _ IH]; [reflexivity|].
  rewrite utf8_decode_ascii by exact Hb. cbn [map]. now rewrite IH.
Qed.

(** X11.  A file of ASCII bytes is read byte for byte: decoding drops and
    changes nothing, and without carriage returns the lines, put end to end,
    are the bytes of the file. *)
Theorem ascii_file_read_as_is (bytes : list byte) :
  Forall (fun b => (Byte.to_N b < 128)%N) bytes ->
  utf8_decode_ignore bytes = map Byte.to_N bytes
  /\ (~ In x0d bytes ->
      List.concat (lines_of bytes) = map Byte.to_N bytes).
Proof.
  intros H. split; [now apply utf8_decode_ascii_all|].
  intros Hcr. unfold lines_of.
  rewrite split_lines_concat, utf8_decode_ascii_all by exact H.
  apply translate_newlines_id. intros Hin. apply in_map_iff in Hin.
  destruct Hin as [b [Hb Hin]]. apply Hcr.
  replace x0d with b; [exact Hin|].
  pose proof (Byte.of_to_N b) as Hof. rewrite Hb in Hof.
  vm_compute in Hof. congruence.
Qed.

Lemma ascii_file_read_as_is_witness :
  Forall (fun b => (Byte.to_N b < 128)%N) greek_bytes
  /\ utf8_decode_ignore greek_bytes = map Byte.to_N greek_bytes.
Proof.
  assert (H : Forall (fun b => (Byte.to_N b < 128)%N) greek_bytes)
    by (repeat constructor).
  split; [exact H | exact (proj1 (ascii_file_read_as_is greek_bytes H))].
Defined.

Lemma one_file_lookup (file_path : str) (c : file_content) :
  one_file file_path c file_path = Regular c.
Proof.
  unfold one_file.
  now rewrite (proj2 (str_eqb_eq file_path file_path) eq_refl).
Qed.

Lemma crlf_bytes_ascii (bytes : list byte) :
  Forall (fun b => (Byte.to_N b < 128)%N) bytes ->
  Forall (fun b => (Byte.to_N b < 128)%N) (crlf_bytes bytes).
Proof.
  induction 1 as [|b bytes Hb _ IH]; [constructor|].
  unfold crlf_bytes in *. cbn [flat_map].
  destruct (Byte.eqb b x0a); cbn [app]; repeat constructor;
    try exact Hb; exact IH.
Qed.

Lemma translate_crlf (bytes : list byte) :
  ~ In x0d bytes ->
  translate_newlines (map Byte.to_N (crlf_bytes bytes)) = map Byte.to_N bytes.
Proof.
  induction bytes as [|b bytes IH]; [reflexivity|]. intros Hcr.
  assert (Hrest : ~ In x0d bytes) by (intros Hin; apply Hcr; now right).
  unfold crlf_bytes in *. cbn [flat_map]. destruct (Byte.eqb b x0a) eqn:E.
  - apply Byte.byte_dec_bl in E. subst b. cbn [app map].
    change (Byte.to_N x0d) with CR. change (Byte.to_N x0a) with NL.
    cbn [translate_newlines]. rewrite !N.eqb_refl. now rewrite IH.
  - cbn [app map translate_newlines].
    destruct (N.eqb (Byte.to_N b) CR) eqn:Ecr.
    + apply N.eqb_eq in Ecr. exfalso. apply Hcr. left.
      pose proof (Byte.of_to_N b) as Hof. rewrite Ecr in Hof.
      vm_compute in Hof. congruence.
    + now rewrite IH.
Qed.

(** X12.  An ASCII file written with carriage return and newline at every
    line end is read into the same lines as the file written with newlines
    alone, so the file search gives the same answer for both. *)
Theorem windows_line_ends_read_like_unix
        (lower : str -> str) (keyword : str) (case_sensitive : bool)
        (file_path : str) (bytes : list byte) (C : Z) :
  Forall (fun b => (Byte.to_N b < 128)%N) bytes ->
  ~ In x0d bytes ->
  lines_of (crlf_bytes bytes) = lines_of bytes
  /\ search_keyword_in_file lower keyword case_sensitive
                            (one_file file_path (Content (crlf_bytes bytes)))
                            file_path C
     = search_keyword_in_file lower keyword case_sensitive
                              (one_file file_path (Content bytes))
                              file_path C.
Proof.
  intros Hascii Hcr.
  assert (Hlines : lines_of (crlf_bytes bytes) = lines_of bytes).
  { unfold lines_of.
    rewrite (utf8_decode_ascii_all (crlf_bytes bytes))
      by now apply crlf_bytes_ascii.
    rewrite translate_crlf by exact Hcr.
    rewrite (utf8_decode_ascii_all bytes) by exact Hascii.
    rewrite translate_newlines_id; [reflexivity|].
    intros Hin. apply in_map_iff in Hin. destruct Hin as [b [Hb Hin]].
    apply Hcr. replace x0d with b; [exact Hin|].
    pose proof (Byte.of_to_N b) as Hof. rewrite Hb in Hof.
    vm_compute in Hof. congruence. }
  split; [exact Hlines|].
  destruct (file_matches_of_ok lower keyword case_sensitive (lines_of bytes) C)
    as [matches [E _]].
  rewrite (search_file_readable lower keyword case_sensitive _ file_path
             (crlf_bytes bytes) C matches (one_file_lookup _ _))
    by (rewrite Hlines; exact E).
  rewrite (search_file_readable lower keyword case_sensitive _ file_path
             bytes C matches (one_file_lookup _ _) E).
  reflexivity.
Qed.

Lemma windows_line_ends_read_like_unix_witness :
  Forall (fun b => (Byte.to_N b < 128)%N) greek_bytes
  /\ ~ In x0d greek_bytes
  /\ lines_of (crlf_bytes greek_bytes) = lines_of greek_bytes.
Proof.
  assert (Ha : Forall (fun b => (Byte.to_N b < 128)%N) greek_bytes)
    by (repeat constructor).
  assert (Hc : ~ In x0d greek_bytes) by (cbn; intuition discriminate).
  split; [exact Ha|]. split; [exact Hc|].
  exact (proj1 (windows_line_ends_read_like_unix
                  ascii_lower (lit "beta") false (lit "f.txt") greek_bytes 1
                  Ha Hc)).
Defined.

(** ** Case *)

(** X13.  On ASCII text, where [str.lower] is ASCII lower-casing, every
    line found with case respected is also found with case ignored. *)
Theorem case_sensitive_matches_found_insensitively
        (lower : str -> str) (keyword : str) (lines : list str) :
  (forall s, Forall (fun c => (c < 128)%N) s -> lower s = ascii_lower s) ->
  Forall (fun c => (c < 128)%N) keyword ->
  Forall (Forall (fun c => (c < 128)%N)) lines ->
  incl (matching_numbers lower keyword true lines)
       (matching_numbers lower keyword false lines).
Proof.
  intros Hascii Hk Hlines n Hn. apply matching_numbers_In in Hn.
  apply matching_numbers_In. destruct Hn as [H1 [l [Hl Hm]]].
  split; [exact H1|]. exists l. split; [exact Hl|].
  assert (Hlascii : Forall (fun c => (c < 128)%N) l).
  { rewrite Forall_forall in Hlines. apply Hlines.
    eapply nth_error_In, Hl. }
  unfold line_matches in *. cbn [search_keyword line_content] in *.
  rewrite (Hascii keyword Hk), (Hascii l Hlascii).
  apply contains_spec in Hm. apply contains_spec.
  destruct Hm as [pre [post ->]].
  exists (ascii_lower pre), (ascii_lower post).
  unfold ascii_lower. now rewrite !map_app.
Qed.

Lemma case_sensitive_matches_found_insensitively_witness :
  (forall s, Forall (fun c => (c < 128)%N) s ->
             str_lower basic_tables s = ascii_lower s)
  /\ Forall (fun c => (c < 128)%N) (lit "BETA")
  /\ Forall (Forall (fun c => (c < 128)%N)) (lines_of greek_bytes)
  /\ incl (matching_numbers (str_lower basic_tables) (lit "BETA") true
                            (lines_of greek_bytes))
          (matching_numbers (str_lower basic_tables) (lit "BETA") false
                            (lines_of greek_bytes))
  /\ matching_numbers (str_lower basic_tables) (lit "BETA") true
                      (lines_of greek_bytes) = [2].
Proof.
  assert (Hk : Forall (fun c => (c < 128)%N) (lit "BETA"))
    by (repeat constructor).
  assert (Hl : Forall (Forall (fun c => (c < 128)%N)) (lines_of greek_bytes))
    by (repeat constructor).
  split; [exact str_lower_basic_ascii|]. split; [exact Hk|].
  split; [exact Hl|]. split; [|reflexivity].
  exact (case_sensitive_matches_found_insensitively
           (str_lower basic_tables) (lit "BETA") (lines_of greek_bytes)
           str_lower_basic_ascii Hk Hl).
Defined.

(** ** Files outside the filter, files without text *)

(** X14.  The directory search depends only on the files that pass its
    filter: removing every other file from the tree leaves the result mapping
    unchanged. *)
Theorem filtered_out_files_do_not_matter
        (lower : str -> str) (keyword : str) (case_sensitive : bool)
        (file_pattern : option str) (children : list entry) :
  search_tree lower keyword case_sensitive file_pattern
              (prune (fun f => file_included lower file_pattern (fst f))
                     children)
  = search_tree lower keyword case_sensitive file_pattern children.
Proof.
  apply search_tree_prune. intros [file c] H. unfold hits. cbn [fst snd] in *.
  rewrite H. now destruct c.
Qed.

(** X15.  A readable file whose bytes hold no text, an empty file among
    them, gets the no-match answer for every keyword, the empty keyword
    included, whatever the case flag and the context_lines. *)
Theorem file_without_text_never_matches
        (lower : str -> str) (keyword : str) (case_sensitive : bool)
        (fs : filesystem) (file_path : str) (bytes : list byte) (C : Z) :
  fs file_path = Regular (Content bytes) ->
  utf8_decode_ignore bytes = [] ->
  search_keyword_in_file lower keyword case_sensitive fs file_path C
  = lit "No matches found for '" ++ keyword ++ lit "' in file '"
      ++ file_path ++ lit "'.".
Proof.
  intros Hfs Hd.
  assert (Hl : lines_of bytes = []) by (unfold lines_of; now rewrite Hd).
  apply (search_file_readable lower keyword case_sensitive fs file_path bytes
                              C [] Hfs).
  now rewrite Hl.
Qed.

Lemma file_without_text_never_matches_witness :
  one_file (lit "empty.txt") (Content []) (lit "empty.txt")
  = Regular (Content [])
  /\ utf8_decode_ignore [] = []
  /\ search_keyword_in_file ascii_lower [] false
                            (one_file (lit "empty.txt") (Content []))
                            (lit "empty.txt") 2
     = lit "No matches found for '" ++ [] ++ lit "' in file '"
         ++ lit "empty.txt" ++ lit "'.".
Proof.
  split; [reflexivity|]. split; [reflexivity|].
  exact (file_without_text_never_matches
           ascii_lower [] false (one_file (lit "empty.txt") (Content []))
           (lit "empty.txt") [] 2 eq_refl eq_refl).
Defined.

Lemma rfind_from_absent (c : N) (s : str) :
  forall i, ~ In c s -> rfind_from i c s = -1.
Proof.
  induction s as [|a t IH]; intros i H; [reflexivity|].
  cbn [rfind_from]. rewrite IH by (intros Hin; apply H; now right).
  cbn. destruct (N.eqb a c) eqn:E; [|reflexivity].
  apply N.eqb_eq in E. exfalso. apply H. now left.
Qed.

Lemma rfind_from_bound (c : N) (s : str) :
  forall i, rfind_from i c s = -1 \/ i <= rfind_from i c s.
Proof.
  induction s as [|a t IH]; intros i; cbn [rfind_from]; [now left|].
  destruct (IH (i + 1)) as [H | H].
  - rewrite H. cbn. destruct (N.eqb a c); [right; lia | now left].
  - destruct (0 <=? rfind_from (i + 1) c t); [right; lia|].
    destruct (N.eqb a c); [right; lia | now left].
Qed.

(** X16.  Without a file_pattern a file whose name has no dot has no
    extension and is not searched: whatever it contains, it adds nothing to
    the result of the directory search. *)
Theorem file_without_dot_not_searched_by_default
        (lower : str -> str) (keyword : str) (case_sensitive : bool)
        (file : str) (c : file_content) :
  lower [] = [] ->
  ~ In DOT file ->
  splitext file = (file, [])
  /\ file_included lower None file = false
  /\ forall root matches_by_file,
      visit_file lower keyword case_sensitive None root matches_by_file
                 (file, c)
      = matches_by_file.
Proof.
  intros Hlower Hdot.
  assert (Hs : splitext file = (file, [])).
  { unfold splitext, rfind. rewrite (rfind_from_absent DOT file 0 Hdot).
    destruct (rfind_from_bound SEP file 0) as [H | H].
    - rewrite H. reflexivity.
    - replace (rfind_from 0 SEP file <? -1) with false
        by (symmetry; apply Z.ltb_ge; lia).
      reflexivity. }
  assert (Hi : file_included lower None file = false).
  { unfold file_included. rewrite Hs. cbn [snd]. rewrite Hlower. reflexivity. }
  split; [exact Hs|]. split; [exact Hi|].
  intros root d. unfold visit_file. now rewrite Hi.
Qed.

Lemma file_without_dot_not_searched_by_default_witness :
  ascii_lower [] = []
  /\ ~ In DOT (lit "Makefile")
  /\ file_included ascii_lower None (lit "Makefile") = false.
Proof.
  assert (Hd : ~ In DOT (lit "Makefile")) by (cbn; intuition discriminate).
  split; [reflexivity|]. split; [exact Hd|].
  exact (proj1 (proj2 (file_without_dot_not_searched_by_default
                         ascii_lower (lit "x") false (lit "Makefile")
                         (Content []) eq_refl Hd))).
Defined.

Example nested_tree_search :
  search_tree ascii_lower (lit "beta") false None nested_tree
  = [ (lit "top.md", [DirMatch 1 (lit "Beta")]);
      (lit "src/m.py", [DirMatch 1 (lit "beta = 1")]);
      (lit "src/deep/n.py", [DirMatch 1 (lit "# BETA")]) ].
Proof. reflexivity. Qed.
